(** * lvgl-msg-bus: publish/subscribe bus and reactive data store

    A shallow embedding of [src/src/message_bus.cc] and
    [src/src/data_store.cc].  Each C++ member function becomes a pure
    function on the object's state; what the function asks of the platform
    (the result of [xSemaphoreTake], the tick returned by
    [xTaskGetTickCount], whether a [malloc] succeeds) is an explicit
    argument, and what it does to the outside (callback invocations,
    [lv_async_call] requests) is returned as a list of events.

    The calls are taken one after the other.  A callback is known by name
    only: the model records that it is called and with what, not what it
    does; a call it makes on the bus is one more call of the sequence. *)

From Stdlib Require Import ZArith Lia List Bool.
From stdpp Require Import base option list gmap.

Local Open Scope Z_scope.

(** ** Machine integers and raw memory *)

(** [uint32_t] arithmetic: values are kept in [Z] and every operation that
    can leave the range is reduced modulo [2^32]. *)
Definition wrap32 (z : Z) : Z := z mod 2 ^ 32.

Definition UINT32_MAX : Z := 2 ^ 32 - 1.

Abbreviation byte := Byte.byte.

(** A [const void*] argument: [None] is [nullptr], [Some buf] points at a
    readable region whose bytes are [buf]. *)
Definition ptr : Type := option (list byte).

(** The [n] bytes found at the start of a region.  Reading more bytes than
    the region holds is undefined in C; the model then reads what is there. *)
Definition read_bytes (buf : list byte) (n : Z) : list byte :=
  firstn (Z.to_nat n) buf.

(** [memcpy(dst, src, n)]: the first [n] bytes of [dst] are replaced. *)
Definition memcpy (dst src : list byte) (n : Z) : list byte :=
  read_bytes src n ++ skipn (Z.to_nat n) dst.

(** [memcmp(a, b, n)]: sign of the first difference among the first [n]
    bytes, compared as [unsigned char]; a region that ends early compares
    below one that goes on. *)
Fixpoint memcmp_nat (a b : list byte) (n : nat) {struct n} : Z :=
  match n with
  | O => 0
  | S n' =>
      match a, b with
      | x :: a', y :: b' =>
          if (Byte.to_N x <? Byte.to_N y)%N then -1
          else if (Byte.to_N y <? Byte.to_N x)%N then 1
          else memcmp_nat a' b' n'
      | [], [] => 0
      | [], _ :: _ => -1
      | _ :: _, [] => 1
      end
  end.

Definition memcmp (a b : list byte) (n : Z) : Z := memcmp_nat a b (Z.to_nat n).

(** ** Types of message_bus.h *)

Inductive DeliveryMode := Immediate | LvglAsync.

(** A callable target held in a [std::function]: a user function taking the
    message, or the wrapper built by [DataStore::Watch] around a function
    taking the key. *)
Inductive Callable :=
| MsgFn (name : nat)
| KeyFn (key : Z) (name : nat).

(** [std::function<void(const Message&)>]; [None] is the empty function. *)
Definition MessageCallback : Type := option Callable.

Definition SubscriptionId : Type := Z.

Definition kInvalidSubscription : SubscriptionId := 0.

Record Message := mkMessage {
  msg_topic : Z;
  msg_data : ptr;
  msg_data_size : Z;
  msg_timestamp : Z
}.

Record BusConfig := mkBusConfig {
  max_subscribers : Z;
  max_data_size : Z
}.

Definition default_BusConfig : BusConfig := mkBusConfig 32 512.

Inductive esp_err_t := ESP_OK | ESP_ERR_INVALID_STATE | ESP_ERR_NO_MEM.

(** [MessageBus::SubscriberEntry].  message_bus.cc builds it from six
    values, [{id, topic, cb, mode, interval_ticks, 0}], and reads the last
    two as [min_interval_ticks] and [last_delivery_tick]. *)
Record SubscriberEntry := mkSubscriberEntry {
  sub_id : SubscriptionId;
  sub_topic : Z;
  sub_callback : MessageCallback;
  sub_mode : DeliveryMode;
  min_interval_ticks : Z;
  last_delivery_tick : Z
}.

Definition set_last_delivery_tick (sub : SubscriberEntry) (now : Z) : SubscriberEntry :=
  mkSubscriberEntry (sub_id sub) (sub_topic sub) (sub_callback sub) (sub_mode sub)
    (min_interval_ticks sub) now.

(** [MessageBus::AsyncPayload] with the bytes that follow the header. *)
Record AsyncPayload := mkAsyncPayload {
  ap_callback : MessageCallback;
  ap_topic : Z;
  ap_timestamp : Z;
  ap_data_size : Z;
  ap_bytes : list byte
}.

(** What a [Publish] does to the outside, in order.  The entry of the
    snapshot the event comes from is kept with it. *)
Inductive Delivery :=
| Invoked (sub : SubscriberEntry) (msg : Message)
| Scheduled (sub : SubscriberEntry) (payload : AsyncPayload).

Definition delivery_sub (d : Delivery) : SubscriberEntry :=
  match d with
  | Invoked sub _ => sub
  | Scheduled sub _ => sub
  end.

Definition delivery_size (d : Delivery) : Z :=
  match d with
  | Invoked _ msg => msg_data_size msg
  | Scheduled _ payload => ap_data_size payload
  end.

(** What the platform answers during one [Publish]. *)
Record PublishEnv := mkPublishEnv {
  env_tick : Z;               (* xTaskGetTickCount() *)
  env_take : bool;            (* xSemaphoreTake(mutex_, ...) == pdTRUE *)
  env_malloc : nat -> bool    (* malloc succeeds in the i-th round of the delivery loop *)
}.

(** ** MessageBus *)

Module MessageBus.

Record state := mkState {
  initialized_ : bool;
  config_ : BusConfig;
  mutex_ : bool;
  subscribers_ : list SubscriberEntry;
  next_id_ : SubscriptionId
}.

(** The default-constructed singleton. *)
Definition fresh : state := mkState false default_BusConfig false [] 1.

Definition with_subscribers (b : state) (subs : list SubscriberEntry) : state :=
  mkState (initialized_ b) (config_ b) (mutex_ b) subs (next_id_ b).

Definition Initialize (b : state) (config : BusConfig) (mutex_created : bool)
  : state * esp_err_t :=
  if initialized_ b then (b, ESP_ERR_INVALID_STATE)
  else if negb mutex_created then
    (mkState false config false (subscribers_ b) (next_id_ b), ESP_ERR_NO_MEM)
  else
    (mkState true config true (subscribers_ b) (next_id_ b), ESP_OK).

Section Subscribe.

(** FreeRTOS's conversion macro, configured by the application. *)
Variable pdMS_TO_TICKS : Z -> Z.

Definition Subscribe (b : state) (topic : Z) (cb : MessageCallback)
    (mode : DeliveryMode) (min_interval_ms : Z) (take : bool)
  : state * SubscriptionId :=
  if negb (initialized_ b) || negb (bool_decide (is_Some cb)) then
    (b, kInvalidSubscription)
  else if negb take then (b, kInvalidSubscription)
  else
    let id := next_id_ b in
    let next := wrap32 (next_id_ b + 1) in
    let next := if next =? kInvalidSubscription then 1 else next in
    let interval_ticks :=
      if 0 <? min_interval_ms then wrap32 (pdMS_TO_TICKS min_interval_ms) else 0 in
    (mkState (initialized_ b) (config_ b) (mutex_ b)
       (subscribers_ b ++ [mkSubscriberEntry id topic cb mode interval_ticks 0])
       next,
     id).

End Subscribe.

(** The loop of [Unsubscribe]: erase the first entry with this id. *)
Fixpoint erase_first (id : SubscriptionId) (subs : list SubscriberEntry)
  : list SubscriberEntry :=
  match subs with
  | [] => []
  | sub :: rest => if sub_id sub =? id then rest else sub :: erase_first id rest
  end.

Definition Unsubscribe (b : state) (id : SubscriptionId) (take : bool) : state :=
  if (id =? kInvalidSubscription) || negb (initialized_ b) then b
  else if negb take then b
  else with_subscribers b (erase_first id (subscribers_ b)).

(** The locked loop of [Publish]: the registry after the scan, and the
    snapshot [matches]. *)
Fixpoint snapshot (topic now : Z) (subs : list SubscriberEntry)
  : list SubscriberEntry * list SubscriberEntry :=
  match subs with
  | [] => ([], [])
  | sub :: rest =>
      let '(rest', matches) := snapshot topic now rest in
      if sub_topic sub =? topic then
        if (0 <? min_interval_ticks sub)
           && (wrap32 (now - last_delivery_tick sub) <? min_interval_ticks sub)
        then (sub :: rest', matches)
        else
          let sub' := set_last_delivery_tick sub now in
          (sub' :: rest', sub' :: matches)
      else (sub :: rest', matches)
  end.

(** The delivery loop of [Publish], run outside the lock; [i] counts the
    rounds. *)
Fixpoint deliver (topic : Z) (data : ptr) (size now : Z) (malloc_ok : nat -> bool)
    (i : nat) (matches : list SubscriberEntry) : list Delivery :=
  match matches with
  | [] => []
  | sub :: rest =>
      let tail := deliver topic data size now malloc_ok (S i) rest in
      match sub_mode sub with
      | Immediate => Invoked sub (mkMessage topic data size now) :: tail
      | LvglAsync =>
          if malloc_ok i then
            let bytes :=
              match data with
              | Some buf => if 0 <? size then read_bytes buf size else []
              | None => []
              end in
            Scheduled sub (mkAsyncPayload (sub_callback sub) topic now size bytes) :: tail
          else tail
      end
  end.

(** The size [Publish] goes on with. *)
Definition clip (b : state) (size : Z) : Z :=
  if max_data_size (config_ b) <? size then max_data_size (config_ b) else size.

Definition Publish (b : state) (topic : Z) (data : ptr) (size : Z) (env : PublishEnv)
  : state * list Delivery :=
  if negb (initialized_ b) then (b, [])
  else
    let size := clip b size in
    let now := wrap32 (env_tick env) in
    if negb (env_take env) then (b, [])
    else
      let '(subs', matches) := snapshot topic now (subscribers_ b) in
      (with_subscribers b subs',
       deliver topic data size now (env_malloc env) 0 matches).

(** [LvglAsyncCb], run later by the LVGL task: the callback it calls and the
    message it passes, if any. *)
Definition LvglAsyncCb (user_data : option AsyncPayload)
  : option (Callable * Message) :=
  match user_data with
  | None => None
  | Some payload =>
      let msg :=
        mkMessage (ap_topic payload)
          (if 0 <? ap_data_size payload then Some (ap_bytes payload) else None)
          (ap_data_size payload) (ap_timestamp payload) in
      match ap_callback payload with
      | Some f => Some (f, msg)
      | None => None
      end
  end.

End MessageBus.

(** ** Types of data_store.h *)

Record DataStoreConfig := mkDataStoreConfig {
  max_entry_size : Z
}.

Definition default_DataStoreConfig : DataStoreConfig := mkDataStoreConfig 256.

Definition kDefaultTopicBase : Z := 0x8000.

(** [DataStore::Entry]. *)
Record Entry := mkEntry {
  entry_data : list byte
}.

(** One call of [MessageBus::Publish] made by the store, with the
    deliveries the bus made of it. *)
Inductive Notification :=
| PublishCall (topic : Z) (data : ptr) (size : Z) (deliveries : list Delivery).

(** ** DataStore *)

Module DataStore.

Record state := mkState {
  initialized_ : bool;
  config_ : DataStoreConfig;
  topic_base_ : Z;
  mutex_ : bool;
  entries_ : gmap Z Entry
}.

(** The default-constructed singleton. *)
Definition fresh : state :=
  mkState false default_DataStoreConfig kDefaultTopicBase false ∅.

Definition with_entries (s : state) (entries : gmap Z Entry) : state :=
  mkState (initialized_ s) (config_ s) (topic_base_ s) (mutex_ s) entries.

Definition Initialize (s : state) (config : DataStoreConfig) (topic_base : Z)
    (mutex_created : bool) : state * esp_err_t :=
  if initialized_ s then (s, ESP_ERR_INVALID_STATE)
  else if negb mutex_created then
    (mkState false config topic_base false (entries_ s), ESP_ERR_NO_MEM)
  else
    (mkState true config topic_base true (entries_ s), ESP_OK).

(** The locked part of [SetRaw]: the map afterwards and the flag [changed]. *)
Definition store_value (entries : gmap Z Entry) (key : Z) (buf : list byte) (size : Z)
  : gmap Z Entry * bool :=
  match entries !! key with
  | None => (<[key := mkEntry (read_bytes buf size)]> entries, true)
  | Some existing =>
      if negb (Z.of_nat (length (entry_data existing)) =? size)
         || negb (memcmp (entry_data existing) buf size =? 0)
      then (<[key := mkEntry (read_bytes buf size)]> entries, true)
      else (entries, false)
  end.

(** [SetRaw] works on the store and, through [MessageBus::GetInstance()],
    on the bus.  [take] answers the store's mutex, [env] the nested
    [Publish]. *)
Definition SetRaw (s : state) (bus : MessageBus.state) (key : Z) (data : ptr)
    (size : Z) (take : bool) (env : PublishEnv)
  : state * MessageBus.state * list Notification :=
  if negb (initialized_ s) || negb (bool_decide (is_Some data)) || (size =? 0) then
    (s, bus, [])
  else if max_entry_size (config_ s) <? size then (s, bus, [])
  else if negb take then (s, bus, [])
  else
    let '(entries', changed) :=
      store_value (entries_ s) key (default [] data) size in
    if changed then
      let topic := wrap32 (topic_base_ s + key) in
      let '(bus', deliveries) := MessageBus.Publish bus topic data size env in
      (with_entries s entries', bus', [PublishCall topic data size deliveries])
    else (with_entries s entries', bus, []).

(** [GetRaw] returns its result and the region behind [out] afterwards. *)
Definition GetRaw (s : state) (key : Z) (out : ptr) (size : Z) (take : bool)
  : bool * ptr :=
  if negb (initialized_ s) || negb (bool_decide (is_Some out)) || (size =? 0) then
    (false, out)
  else if negb take then (false, out)
  else
    match entries_ s !! key with
    | Some e =>
        if Z.of_nat (length (entry_data e)) =? size then
          (true, Some (memcpy (default [] out) (entry_data e) size))
        else (false, out)
    | None => (false, out)
    end.

Section Watch.

Variable pdMS_TO_TICKS : Z -> Z.

(** [callback] is a [std::function<void(uint32_t)>], given by name.  The
    call passes no interval to [Subscribe]: the watch is unthrottled. *)
Definition Watch (s : state) (bus : MessageBus.state) (key : Z)
    (callback : option nat) (take : bool) : MessageBus.state * SubscriptionId :=
  match callback with
  | Some name =>
      if negb (initialized_ s) then (bus, kInvalidSubscription)
      else
        MessageBus.Subscribe pdMS_TO_TICKS bus (wrap32 (topic_base_ s + key))
          (Some (KeyFn key name)) LvglAsync 0 take
  | None => (bus, kInvalidSubscription)
  end.

End Watch.

Definition Unwatch (s : state) (bus : MessageBus.state) (id : SubscriptionId)
    (take : bool) : state * MessageBus.state :=
  (s, MessageBus.Unsubscribe bus id take).

Definition Contains (s : state) (key : Z) (take : bool) : bool :=
  if negb (initialized_ s) then false
  else if negb take then false
  else bool_decide (is_Some (entries_ s !! key)).

Definition Remove (s : state) (key : Z) (take : bool) : state :=
  if negb (initialized_ s) then s
  else if negb take then s
  else with_entries s (delete key (entries_ s)).

End DataStore.

(** ** Subscription and SubscriptionGroup (subscription.h) *)

(** The RAII guard: one id, released through [MessageBus::Unsubscribe].
    Each function returns the guard (and the bus) as the call leaves them;
    [take] answers the mutex of the [Unsubscribe] it may make. *)
Module Subscription.

Record t := mk {
  id_ : SubscriptionId
}.

(** [Subscription()]. *)
Definition empty : t := mk kInvalidSubscription.

(** [explicit Subscription(SubscriptionId id)]. *)
Definition of_id (id : SubscriptionId) : t := mk id.

Definition IsValid (g : t) : bool := negb (id_ g =? kInvalidSubscription).

Definition Id (g : t) : SubscriptionId := id_ g.

Definition Reset (g : t) (bus : MessageBus.state) (take : bool)
  : t * MessageBus.state :=
  if negb (id_ g =? kInvalidSubscription) then
    (mk kInvalidSubscription, MessageBus.Unsubscribe bus (id_ g) take)
  else (g, bus).

(** [~Subscription()]: the bus after the guard is gone. *)
Definition destroy (g : t) (bus : MessageBus.state) (take : bool)
  : MessageBus.state :=
  (Reset g bus take).2.

(** [Subscription(Subscription&& other)]: the new guard and [other]
    afterwards. *)
Definition move_construct (other : t) : t * t :=
  (mk (id_ other), mk kInvalidSubscription).

(** [operator=(Subscription&& other)] on two different objects: [this] and
    [other] afterwards, and the bus.  On one and the same object the
    operator does nothing. *)
Definition move_assign (this other : t) (bus : MessageBus.state) (take : bool)
  : t * t * MessageBus.state :=
  let '(_, bus') := Reset this bus take in
  (mk (id_ other), mk kInvalidSubscription, bus').

End Subscription.

(** The container of guards.  [takes i] answers the mutex for the guard at
    index [i] when the guards are destroyed, first to last. *)
Module SubscriptionGroup.

Record t := mk {
  subs_ : list Subscription.t
}.

Definition empty : t := mk [].

(** [Add(SubscriptionId id)]. *)
Definition Add (g : t) (id : SubscriptionId) : t :=
  if negb (id =? kInvalidSubscription) then mk (subs_ g ++ [Subscription.of_id id])
  else g.

(** [Add(Subscription&& sub)]: the group and [sub] afterwards. *)
Definition Add_move (g : t) (sub : Subscription.t) : t * Subscription.t :=
  if Subscription.IsValid sub then
    let '(element, sub') := Subscription.move_construct sub in
    (mk (subs_ g ++ [element]), sub')
  else (g, sub).

(** Destroying the guards of a vector, from index [i] on. *)
Fixpoint destroy_all (subs : list Subscription.t) (bus : MessageBus.state)
    (takes : nat -> bool) (i : nat) : MessageBus.state :=
  match subs with
  | [] => bus
  | sub :: rest =>
      destroy_all rest (Subscription.destroy sub bus (takes i)) takes (S i)
  end.

(** [Clear()]: [subs_.clear()]. *)
Definition Clear (g : t) (bus : MessageBus.state) (takes : nat -> bool)
  : t * MessageBus.state :=
  (mk [], destroy_all (subs_ g) bus takes 0).

Definition Size (g : t) : nat := length (subs_ g).

Definition Empty (g : t) : bool :=
  match subs_ g with
  | [] => true
  | _ :: _ => false
  end.

(** The ids the guards of the group hold. *)
Definition ids (g : t) : list SubscriptionId := Subscription.id_ <$> subs_ g.

End SubscriptionGroup.

(** ** Sequences of calls *)

(** A client's call on the bus, with the platform's answers. *)
Inductive BusCall :=
| CallInitialize (config : BusConfig) (mutex_created : bool)
| CallSubscribe (topic : Z) (cb : MessageCallback) (mode : DeliveryMode)
    (min_interval_ms : Z) (take : bool)
| CallUnsubscribe (id : SubscriptionId) (take : bool)
| CallPublish (topic : Z) (data : ptr) (size : Z) (env : PublishEnv).

(** What the client sees of it.  For [Subscribe], [registered] tells whether
    the call got as far as [push_back]. *)
Inductive BusReturn :=
| RetInitialize (err : esp_err_t)
| RetSubscribe (id : SubscriptionId) (registered : bool)
| RetUnsubscribe
| RetPublish (deliveries : list Delivery).

Section Calls.

Variable pdMS_TO_TICKS : Z -> Z.

Definition call (b : MessageBus.state) (c : BusCall) : MessageBus.state * BusReturn :=
  match c with
  | CallInitialize config mutex_created =>
      let '(b', err) := MessageBus.Initialize b config mutex_created in
      (b', RetInitialize err)
  | CallSubscribe topic cb mode min_interval_ms take =>
      let '(b', id) :=
        MessageBus.Subscribe pdMS_TO_TICKS b topic cb mode min_interval_ms take in
      (b', RetSubscribe id
             (Nat.ltb (length (MessageBus.subscribers_ b))
                      (length (MessageBus.subscribers_ b'))))
  | CallUnsubscribe id take => (MessageBus.Unsubscribe b id take, RetUnsubscribe)
  | CallPublish topic data size env =>
      let '(b', deliveries) := MessageBus.Publish b topic data size env in
      (b', RetPublish deliveries)
  end.

Fixpoint run (b : MessageBus.state) (calls : list BusCall)
  : MessageBus.state * list BusReturn :=
  match calls with
  | [] => (b, [])
  | c :: rest =>
      let '(b1, ret) := call b c in
      let '(b2, rets) := run b1 rest in
      (b2, ret :: rets)
  end.

End Calls.

(** The ids handed out by the [Subscribe] calls that registered an entry. *)
Fixpoint issued_ids (rets : list BusReturn) : list SubscriptionId :=
  match rets with
  | [] => []
  | RetSubscribe id true :: rest => id :: issued_ids rest
  | _ :: rest => issued_ids rest
  end.

(** All deliveries made by the [Publish] calls of a run. *)
Fixpoint all_deliveries (rets : list BusReturn) : list Delivery :=
  match rets with
  | [] => []
  | RetPublish deliveries :: rest => deliveries ++ all_deliveries rest
  | _ :: rest => all_deliveries rest
  end.

(** The stores a client can bring about, starting from the singleton as
    constructed.  The size given to [SetRaw] is a [size_t], and the region
    holds the [size] bytes it announces. *)
Inductive store_reachable : DataStore.state -> Prop :=
| reach_fresh : store_reachable DataStore.fresh
| reach_Initialize s config topic_base mutex_created :
    store_reachable s ->
    store_reachable (DataStore.Initialize s config topic_base mutex_created).1
| reach_SetRaw s bus key data size take env :
    store_reachable s ->
    0 <= size ->
    (forall buf, data = Some buf -> size <= Z.of_nat (length buf)) ->
    store_reachable (DataStore.SetRaw s bus key data size take env).1.1
| reach_Remove s key take :
    store_reachable s ->
    store_reachable (DataStore.Remove s key take).

(** ** Reading the loops of Publish *)

(** Whether the scan takes an entry into the snapshot. *)
Definition fires (topic now : Z) (sub : SubscriberEntry) : bool :=
  (sub_topic sub =? topic)
  && negb ((0 <? min_interval_ticks sub)
           && (wrap32 (now - last_delivery_tick sub) <? min_interval_ticks sub)).

(** What the scan leaves in the registry for an entry. *)
Definition scanned (topic now : Z) (sub : SubscriberEntry) : SubscriberEntry :=
  if fires topic now sub then set_last_delivery_tick sub now else sub.

(** The id handed out by the [k]-th registering [Subscribe], counting from
    0, if the counter runs from 1 to [UINT32_MAX] and starts again at 1. *)
Definition nth_id (k : nat) : SubscriptionId := Z.of_nat k mod UINT32_MAX + 1.

(** The ids of a registry are pairwise distinct. *)
Definition ids_distinct (subs : list SubscriberEntry) : Prop :=
  NoDup (sub_id <$> subs).

(** ** A small configuration used to exercise the statements *)

(** [pdMS_TO_TICKS] at a tick rate of 100 Hz. *)
Definition ticks_100hz (ms : Z) : Z := ms * 100 / 1000.

Definition always_ok : nat -> bool := fun _ => true.

Definition at_tick (t : Z) : PublishEnv := mkPublishEnv t true always_ok.

(** Three subscriptions: an immediate one and a throttled deferred one on
    topic 7, a deferred one on topic 8. *)
Definition demo_calls : list BusCall :=
  [ CallInitialize default_BusConfig true;
    CallSubscribe 7 (Some (MsgFn 0)) Immediate 0 true;
    CallSubscribe 8 (Some (MsgFn 1)) LvglAsync 0 true;
    CallSubscribe 7 (Some (MsgFn 2)) LvglAsync 1000 true ].

Definition demo_bus : MessageBus.state := (run ticks_100hz MessageBus.fresh demo_calls).1.

Definition demo_bytes : list byte := [Byte.x2a; Byte.x00; Byte.x00; Byte.x00].

(** The platform at tick [t] when the allocation of round 1 fails. *)
Definition at_tick_failing (t : Z) : PublishEnv :=
  mkPublishEnv t true (fun i => negb (Nat.eqb i 1)).

(** An initialized store holding [demo_bytes] under key 5. *)
Definition demo_store : DataStore.state :=
  (DataStore.SetRaw
     (DataStore.Initialize DataStore.fresh default_DataStoreConfig kDefaultTopicBase true).1
     demo_bus 5 (Some demo_bytes) 4 true (at_tick 10)).1.1.

Definition other_bytes : list byte := [Byte.x2b; Byte.x00; Byte.x00; Byte.x00].

(** A bus and a store whose ceilings are two bytes. *)
Definition small_bus : MessageBus.state :=
  (run ticks_100hz MessageBus.fresh
     [ CallInitialize (mkBusConfig 4 2) true;
       CallSubscribe 7 (Some (MsgFn 0)) Immediate 0 true ]).1.

Definition small_store : DataStore.state :=
  (DataStore.Initialize DataStore.fresh (mkDataStoreConfig 2) kDefaultTopicBase true).1.

(** An initialized bus whose counter stands at its last value. *)
Definition last_id_bus : MessageBus.state :=
  MessageBus.mkState true default_BusConfig true [] UINT32_MAX.

(** Calls made after a subscription was removed: two publishes on topic 7
    around a new subscription. *)
Definition later_calls : list BusCall :=
  [ CallPublish 7 (Some demo_bytes) 4 (at_tick 50);
    CallSubscribe 7 (Some (MsgFn 9)) Immediate 0 true;
    CallPublish 7 (Some demo_bytes) 4 (at_tick 200) ].

(** One subscription made and removed at once, as a page does that is
    opened and closed: [Subscribe], then [Unsubscribe] of the id returned. *)
Definition churn_round (b : MessageBus.state) : MessageBus.state :=
  let '(b', id) :=
    MessageBus.Subscribe ticks_100hz b 9 (Some (MsgFn 8)) Immediate 0 true in
  MessageBus.Unsubscribe b' id true.

Fixpoint churn (n : nat) (b : MessageBus.state) : MessageBus.state :=
  match n with
  | O => b
  | S n' => churn n' (churn_round b)
  end.

(** [demo_bus] after so many such rounds that its id counter, which stood
    at 4, has gone through [UINT32_MAX] and stands at 1 again, while the
    three subscriptions of [demo_calls] are still registered. *)
Definition wrapped_bus : MessageBus.state :=
  churn (Z.to_nat (UINT32_MAX - 3)) demo_bus.

(** ** Invariants of the registry and of the store *)

(** What every registered entry satisfies: a valid id, a callback that is
    not empty, ticks within [uint32_t]. *)
Definition entry_ok (e : SubscriberEntry) : Prop :=
  1 <= sub_id e <= UINT32_MAX /\
  is_Some (sub_callback e) /\
  0 <= min_interval_ticks e <= UINT32_MAX /\
  0 <= last_delivery_tick e <= UINT32_MAX.

Definition bus_ok (b : MessageBus.state) : Prop :=
  1 <= MessageBus.next_id_ b <= UINT32_MAX /\
  (MessageBus.initialized_ b = false -> MessageBus.subscribers_ b = []) /\
  Forall entry_ok (MessageBus.subscribers_ b).

(** [store_after s s']: calls on the store lead from [s] to [s']. *)
Inductive store_after (s : DataStore.state) : DataStore.state -> Prop :=
| after_none : store_after s s
| after_Initialize s' config topic_base mutex_created :
    store_after s s' ->
    store_after s (DataStore.Initialize s' config topic_base mutex_created).1
| after_SetRaw s' bus key data size take env :
    store_after s s' ->
    store_after s (DataStore.SetRaw s' bus key data size take env).1.1
| after_Remove s' key take :
    store_after s s' ->
    store_after s (DataStore.Remove s' key take).

(** Everything of an entry but its [last_delivery_tick]. *)
Definition registration (e : SubscriberEntry) : SubscriberEntry :=
  set_last_delivery_tick e 0.

(** Closes the invariant of the store when a call leaves the store alone. *)
Local Ltac unchanged_store :=
  simpl; split; [intros ?; (congruence || auto) | assumption].

(** * Properties *)

(** ** Memory helpers *)

Lemma byte_to_N_inj (x y : byte) : Byte.to_N x = Byte.to_N y -> x = y.
Proof.
  intros H.
  assert (Hx : Byte.of_N (Byte.to_N x) = Some x) by apply Byte.of_to_N.
  assert (Hy : Byte.of_N (Byte.to_N y) = Some y) by apply Byte.of_to_N.
  rewrite H in Hx. congruence.
Qed.

Lemma memcmp_nat_zero (n : nat) : forall a b : list byte,
  memcmp_nat a b n = 0 <-> firstn n a = firstn n b.
Proof.
  induction n as [|n IH]; intros a b; simpl.
  - split; reflexivity.
  - destruct a as [|x a], b as [|y b]; simpl.
    + done.
    + split; [lia | discriminate].
    + split; [lia | discriminate].
    + destruct (N.ltb_spec (Byte.to_N x) (Byte.to_N y)) as [Hlt|Hge].
      * split; [lia |]. intros Heq. injection Heq as -> _. lia.
      * destruct (N.ltb_spec (Byte.to_N y) (Byte.to_N x)) as [Hlt'|Hge'].
        -- split; [lia |]. intros Heq. injection Heq as -> _. lia.
        -- assert (x = y) as -> by (apply byte_to_N_inj; lia).
           rewrite IH. split; [intros -> | intros Heq; injection Heq]; auto.
Qed.

Lemma read_bytes_length (buf : list byte) (n : Z) :
  0 <= n <= Z.of_nat (length buf) -> Z.of_nat (length (read_bytes buf n)) = n.
Proof.
  intros Hn. unfold read_bytes. rewrite length_firstn. lia.
Qed.

(** On an entry of the right length, [memcmp] answers 0 exactly when the
    entry is the value being written. *)
Lemma memcmp_same_value (v buf : list byte) (size : Z) :
  Z.of_nat (length v) = size ->
  (memcmp v buf size = 0 <-> v = read_bytes buf size).
Proof.
  intros Hlen. unfold memcmp, read_bytes. rewrite memcmp_nat_zero.
  replace (firstn (Z.to_nat size) v) with v; [done |].
  symmetry. apply firstn_all2. lia.
Qed.

(** ** The scan and the delivery loop *)

Lemma snapshot_spec (topic now : Z) (subs : list SubscriberEntry) :
  MessageBus.snapshot topic now subs =
    (scanned topic now <$> subs,
     (fun sub => set_last_delivery_tick sub now)
       <$> List.filter (fires topic now) subs).
Proof.
  induction subs as [|sub rest IH]; simpl; [reflexivity |].
  rewrite IH. unfold scanned, fires.
  destruct (sub_topic sub =? topic); simpl; [| reflexivity].
  destruct ((0 <? min_interval_ticks sub)
            && (wrap32 (now - last_delivery_tick sub) <? min_interval_ticks sub));
    reflexivity.
Qed.

Lemma deliver_app topic data size now malloc_ok (m1 m2 : list SubscriberEntry) :
  forall i,
    MessageBus.deliver topic data size now malloc_ok i (m1 ++ m2) =
    MessageBus.deliver topic data size now malloc_ok i m1 ++
    MessageBus.deliver topic data size now malloc_ok (i + length m1)%nat m2.
Proof.
  induction m1 as [|sub rest IH]; intros i; simpl.
  - by rewrite Nat.add_0_r.
  - rewrite IH. replace (S i + length rest)%nat with (i + S (length rest))%nat by lia.
    destruct (sub_mode sub); [reflexivity |].
    destruct (malloc_ok i); reflexivity.
Qed.

(** A delivery is made from an entry of the snapshot. *)
Lemma deliver_sub topic data size now malloc_ok (matches : list SubscriberEntry) :
  forall i d,
    d ∈ MessageBus.deliver topic data size now malloc_ok i matches ->
    delivery_sub d ∈ matches.
Proof.
  induction matches as [|sub rest IH]; intros i d; simpl.
  - intros H. by apply elem_of_nil in H.
  - destruct (sub_mode sub).
    + intros [-> | H]%elem_of_cons; simpl; [left | right; eauto].
    + destruct (malloc_ok i).
      * intros [-> | H]%elem_of_cons; simpl; [left | right; eauto].
      * intros H. right. eauto.
Qed.

Lemma deliver_size topic data size now malloc_ok (matches : list SubscriberEntry) :
  forall i d,
    d ∈ MessageBus.deliver topic data size now malloc_ok i matches ->
    delivery_size d = size.
Proof.
  induction matches as [|sub rest IH]; intros i d; simpl.
  - intros H. by apply elem_of_nil in H.
  - destruct (sub_mode sub).
    + intros [-> | H]%elem_of_cons; simpl; eauto.
    + destruct (malloc_ok i); [| eauto].
      intros [-> | H]%elem_of_cons; simpl; eauto.
Qed.

(** The round [j] of the delivery loop serves the entry [j] of the
    snapshot, whatever happened in the other rounds. *)
Lemma deliver_round topic data size now malloc_ok (matches : list SubscriberEntry) :
  forall i j m,
    matches !! j = Some m ->
    (sub_mode m = Immediate ->
       Invoked m (mkMessage topic data size now)
         ∈ MessageBus.deliver topic data size now malloc_ok i matches) /\
    (sub_mode m = LvglAsync -> malloc_ok (i + j)%nat = true ->
       exists bytes,
         Scheduled m (mkAsyncPayload (sub_callback m) topic now size bytes)
           ∈ MessageBus.deliver topic data size now malloc_ok i matches).
Proof.
  induction matches as [|sub rest IH]; intros i j m Hj; [discriminate |].
  destruct j as [|j]; simpl in Hj.
  - injection Hj as ->. rewrite Nat.add_0_r. simpl. split.
    + intros ->. left.
    + intros -> ->. eexists. left.
  - destruct (IH (S i) j m Hj) as [Himm Hasync].
    replace (i + S j)%nat with (S i + j)%nat by lia.
    simpl. split.
    + intros Hm. specialize (Himm Hm).
      destruct (sub_mode sub); [by right |]. destruct (malloc_ok i); [by right | done].
    + intros Hm Hok. destruct (Hasync Hm Hok) as [bytes Hin]. exists bytes.
      destruct (sub_mode sub); [by right |]. destruct (malloc_ok i); [by right | done].
Qed.

(** [Publish] once it is past its guards. *)
Lemma Publish_locked (b : MessageBus.state) topic data size env :
  MessageBus.initialized_ b = true ->
  env_take env = true ->
  MessageBus.Publish b topic data size env =
    (MessageBus.with_subscribers b
       (scanned topic (wrap32 (env_tick env)) <$> MessageBus.subscribers_ b),
     MessageBus.deliver topic data (MessageBus.clip b size) (wrap32 (env_tick env))
       (env_malloc env) 0
       ((fun sub => set_last_delivery_tick sub (wrap32 (env_tick env)))
          <$> List.filter (fires topic (wrap32 (env_tick env)))
                (MessageBus.subscribers_ b))).
Proof.
  intros Hinit Htake. unfold MessageBus.Publish.
  rewrite Hinit, Htake. simpl. by rewrite snapshot_spec.
Qed.

(** [Publish] stopped by one of its guards. *)
Lemma Publish_dropped (b : MessageBus.state) topic data size env :
  MessageBus.initialized_ b = false \/ env_take env = false ->
  MessageBus.Publish b topic data size env = (b, []).
Proof.
  intros [H | H]; unfold MessageBus.Publish; rewrite H; simpl; [done |].
  by destruct (MessageBus.initialized_ b).
Qed.

Lemma with_subscribers_same (b : MessageBus.state) :
  MessageBus.with_subscribers b (MessageBus.subscribers_ b) = b.
Proof. by destruct b. Qed.

(** An entry the scan does not take gives the same deliveries as a registry
    without it, and stays as it is. *)
Lemma Publish_passes_over (b : MessageBus.state) topic data size env pre e post :
  MessageBus.subscribers_ b = pre ++ e :: post ->
  fires topic (wrap32 (env_tick env)) e = false ->
  MessageBus.subscribers_ (MessageBus.Publish b topic data size env).1 !! length pre
    = Some e /\
  (MessageBus.Publish b topic data size env).2 =
  (MessageBus.Publish (MessageBus.with_subscribers b (pre ++ post))
     topic data size env).2.
Proof.
  intros Hsubs Hfires.
  destruct (MessageBus.initialized_ b) eqn:Hinit;
    [destruct (env_take env) eqn:Htake |].
  - rewrite !Publish_locked by done. simpl. rewrite Hsubs. split.
    + rewrite list_lookup_fmap, list_lookup_middle by done. simpl.
      unfold scanned. by rewrite Hfires.
    + rewrite !List.filter_app. simpl. by rewrite Hfires.
  - rewrite !Publish_dropped by auto. simpl. rewrite Hsubs.
    by rewrite list_lookup_middle.
  - rewrite !Publish_dropped by auto. simpl. rewrite Hsubs.
    by rewrite list_lookup_middle.
Qed.

(** An entry the scan takes is stamped, and served in the round that
    follows the matches before it. *)
Lemma Publish_takes (b : MessageBus.state) topic data size env pre e post :
  MessageBus.initialized_ b = true ->
  env_take env = true ->
  MessageBus.subscribers_ b = pre ++ e :: post ->
  fires topic (wrap32 (env_tick env)) e = true ->
  let now := wrap32 (env_tick env) in
  let e' := set_last_delivery_tick e now in
  let r := MessageBus.Publish b topic data size env in
  MessageBus.subscribers_ r.1 !! length pre = Some e' /\
  (MessageBus.snapshot topic now (MessageBus.subscribers_ b)).2
    !! length (List.filter (fires topic now) pre) = Some e' /\
  (sub_mode e = Immediate ->
     Invoked e' (mkMessage topic data (MessageBus.clip b size) now) ∈ r.2) /\
  (sub_mode e = LvglAsync ->
     env_malloc env (length (List.filter (fires topic now) pre)) = true ->
     exists bytes,
       Scheduled e' (mkAsyncPayload (sub_callback e) topic now
                       (MessageBus.clip b size) bytes) ∈ r.2).
Proof.
  intros Hinit Htake Hsubs Hfires now e' r.
  assert (Hslot :
    ((fun sub => set_last_delivery_tick sub now)
       <$> List.filter (fires topic now) (MessageBus.subscribers_ b))
      !! length (List.filter (fires topic now) pre) = Some e').
  { rewrite Hsubs, List.filter_app. simpl. fold now in Hfires. rewrite Hfires.
    rewrite list_lookup_fmap, list_lookup_middle by done. done. }
  subst r. rewrite Publish_locked by done. fold now. simpl.
  split; [| split].
  - rewrite Hsubs, list_lookup_fmap, list_lookup_middle by done. simpl.
    unfold scanned. fold now in Hfires. by rewrite Hfires.
  - by rewrite snapshot_spec.
  - destruct (deliver_round topic data (MessageBus.clip b size) now (env_malloc env)
                _ 0%nat _ e' Hslot) as [Himm Hasync].
    split; [apply Himm | apply Hasync].
Qed.

(** A delivery comes from an entry of the registry that the scan took. *)
Lemma Publish_delivery_origin (b : MessageBus.state) topic data size env d :
  d ∈ (MessageBus.Publish b topic data size env).2 ->
  exists e,
    e ∈ MessageBus.subscribers_ b /\
    fires topic (wrap32 (env_tick env)) e = true /\
    delivery_sub d = set_last_delivery_tick e (wrap32 (env_tick env)).
Proof.
  destruct (MessageBus.initialized_ b) eqn:Hinit;
    [destruct (env_take env) eqn:Htake |].
  - rewrite Publish_locked by done. simpl. intros Hd.
    apply deliver_sub in Hd. apply list_elem_of_fmap in Hd as (e & -> & He).
    apply list_elem_of_In, List.filter_In in He as [He Hf].
    exists e. by rewrite list_elem_of_In.
  - rewrite Publish_dropped by auto. simpl. intros H. by apply elem_of_nil in H.
  - rewrite Publish_dropped by auto. simpl. intros H. by apply elem_of_nil in H.
Qed.

Lemma fires_topic topic now e : fires topic now e = true -> sub_topic e = topic.
Proof. unfold fires. intros [H _]%andb_true_iff. lia. Qed.

(** An unthrottled immediate entry on the published topic is called. *)
Lemma Publish_calls_immediate (b : MessageBus.state) topic data size env e :
  MessageBus.initialized_ b = true ->
  env_take env = true ->
  e ∈ MessageBus.subscribers_ b ->
  sub_topic e = topic -> min_interval_ticks e = 0 -> sub_mode e = Immediate ->
  Invoked (set_last_delivery_tick e (wrap32 (env_tick env)))
    (mkMessage topic data (MessageBus.clip b size) (wrap32 (env_tick env)))
    ∈ (MessageBus.Publish b topic data size env).2.
Proof.
  intros Hinit Htake He Htopic Hint Hmode.
  apply list_elem_of_split in He as (pre & post & Hsubs).
  assert (Hf : fires topic (wrap32 (env_tick env)) e = true).
  { unfold fires. rewrite Hint. simpl. rewrite andb_true_r. lia. }
  destruct (Publish_takes b topic data size env pre e post Hinit Htake Hsubs Hf)
    as (_ & _ & Himm & _).
  by apply Himm.
Qed.

(** With pairwise distinct ids, an id names one entry. *)
Lemma ids_distinct_same (subs : list SubscriberEntry) e1 e2 :
  ids_distinct subs -> e1 ∈ subs -> e2 ∈ subs -> sub_id e1 = sub_id e2 -> e1 = e2.
Proof.
  unfold ids_distinct. intros Hnd [i Hi]%list_elem_of_lookup [j Hj]%list_elem_of_lookup Hid.
  assert (i = j) as ->.
  { eapply NoDup_lookup; [exact Hnd | |].
    - rewrite list_lookup_fmap, Hi. reflexivity.
    - rewrite list_lookup_fmap, Hj. simpl. by rewrite Hid. }
  congruence.
Qed.

(** With pairwise distinct ids, an entry the scan does not take receives no
    delivery under its id. *)
Lemma Publish_not_delivered (b : MessageBus.state) topic data size env e :
  ids_distinct (MessageBus.subscribers_ b) ->
  e ∈ MessageBus.subscribers_ b ->
  fires topic (wrap32 (env_tick env)) e = false ->
  forall d, d ∈ (MessageBus.Publish b topic data size env).2 ->
    sub_id (delivery_sub d) <> sub_id e.
Proof.
  intros Hnd He Hf d Hd Hid.
  apply Publish_delivery_origin in Hd as (e2 & He2 & Hf2 & Hd).
  rewrite Hd in Hid. simpl in Hid.
  assert (e2 = e) as -> by eauto using ids_distinct_same.
  congruence.
Qed.

(** ** Topic matching *)

(** C5: on an initialized bus, every delivery of [Publish(topic, ...)] is
    made from a registry entry whose stored topic is exactly [topic]; an
    entry registered on another topic is left as it is, the deliveries are
    those of a registry without it and (ids being distinct) none carries
    its id; an unthrottled immediate entry on [topic] is called. *)
Theorem Publish_exact_topic (b : MessageBus.state) topic data size env :
  MessageBus.initialized_ b = true ->
  let now := wrap32 (env_tick env) in
  let r := MessageBus.Publish b topic data size env in
  (forall d, d ∈ r.2 ->
     exists e, e ∈ MessageBus.subscribers_ b /\ sub_topic e = topic /\
               delivery_sub d = set_last_delivery_tick e now) /\
  (forall pre e post,
     MessageBus.subscribers_ b = pre ++ e :: post ->
     sub_topic e <> topic ->
     MessageBus.subscribers_ r.1 !! length pre = Some e /\
     r.2 = (MessageBus.Publish (MessageBus.with_subscribers b (pre ++ post))
              topic data size env).2 /\
     (ids_distinct (MessageBus.subscribers_ b) ->
      forall d, d ∈ r.2 -> sub_id (delivery_sub d) <> sub_id e)) /\
  (env_take env = true ->
   forall e, e ∈ MessageBus.subscribers_ b ->
     sub_topic e = topic -> min_interval_ticks e = 0 -> sub_mode e = Immediate ->
     Invoked (set_last_delivery_tick e now)
       (mkMessage topic data (MessageBus.clip b size) now) ∈ r.2).
Proof.
  intros Hinit now r. split; [| split].
  - intros d Hd. apply Publish_delivery_origin in Hd as (e & He & Hf & Hd).
    exists e. eauto using fires_topic.
  - intros pre e post Hsubs Hne.
    assert (Hf : fires topic (wrap32 (env_tick env)) e = false).
    { unfold fires. destruct (Z.eqb_spec (sub_topic e) topic); done. }
    destruct (Publish_passes_over b topic data size env pre e post Hsubs Hf)
      as [Hkeep Hsame].
    split; [exact Hkeep |]. split; [exact Hsame |].
    intros Hnd. apply Publish_not_delivered; [done | | done].
    rewrite Hsubs, elem_of_app. right. left.
  - intros Htake e He Htopic Hint Hmode. by apply Publish_calls_immediate.
Qed.

Lemma demo_bus_ids_distinct : ids_distinct (MessageBus.subscribers_ demo_bus).
Proof.
  unfold ids_distinct.
  change (NoDup [1; 2; 3]).
  repeat (apply NoDup_cons; split; [rewrite ?elem_of_cons, elem_of_nil; lia |]).
  apply NoDup_nil_2.
Qed.

Lemma Publish_exact_topic_witness :
  MessageBus.initialized_ demo_bus = true /\
  (forall d, d ∈ (MessageBus.Publish demo_bus 7 (Some demo_bytes) 4 (at_tick 50)).2 ->
     exists e, e ∈ MessageBus.subscribers_ demo_bus /\ sub_topic e = 7 /\
               delivery_sub d = set_last_delivery_tick e 50) /\
  MessageBus.subscribers_
    (MessageBus.Publish demo_bus 7 (Some demo_bytes) 4 (at_tick 50)).1 !! 1%nat
    = Some (mkSubscriberEntry 2 8 (Some (MsgFn 1)) LvglAsync 0 0) /\
  (forall d, d ∈ (MessageBus.Publish demo_bus 7 (Some demo_bytes) 4 (at_tick 50)).2 ->
     sub_id (delivery_sub d) <> 2) /\
  Invoked (mkSubscriberEntry 1 7 (Some (MsgFn 0)) Immediate 0 50)
    (mkMessage 7 (Some demo_bytes) 4 50)
    ∈ (MessageBus.Publish demo_bus 7 (Some demo_bytes) 4 (at_tick 50)).2.
Proof.
  destruct (Publish_exact_topic demo_bus 7 (Some demo_bytes) 4 (at_tick 50) eq_refl)
    as (Honly & Hother & Hcalled).
  destruct (Hother
              [mkSubscriberEntry 1 7 (Some (MsgFn 0)) Immediate 0 0]
              (mkSubscriberEntry 2 8 (Some (MsgFn 1)) LvglAsync 0 0)
              [mkSubscriberEntry 3 7 (Some (MsgFn 2)) LvglAsync 100 0]
              eq_refl ltac:(discriminate))
    as (Hkeep & _ & Hnone).
  split; [reflexivity |]. split; [exact Honly |]. split; [exact Hkeep |]. split.
  - exact (Hnone demo_bus_ids_distinct).
  - apply (Hcalled eq_refl (mkSubscriberEntry 1 7 (Some (MsgFn 0)) Immediate 0 0));
      [left | reflexivity | reflexivity | reflexivity].
Defined.

Lemma Subscribe_registers pdMS_TO_TICKS (b : MessageBus.state) topic f mode ms :
  MessageBus.initialized_ b = true ->
  MessageBus.Subscribe pdMS_TO_TICKS b topic (Some f) mode ms true =
    (MessageBus.mkState true (MessageBus.config_ b) (MessageBus.mutex_ b)
       (MessageBus.subscribers_ b ++
          [mkSubscriberEntry (MessageBus.next_id_ b) topic (Some f) mode
             (if 0 <? ms then wrap32 (pdMS_TO_TICKS ms) else 0) 0])
       (if wrap32 (MessageBus.next_id_ b + 1) =? kInvalidSubscription then 1
        else wrap32 (MessageBus.next_id_ b + 1)),
     MessageBus.next_id_ b).
Proof.
  intros Hinit. unfold MessageBus.Subscribe. rewrite Hinit. reflexivity.
Qed.

(** ** Throttling *)

Lemma fires_of_conditions topic now e :
  sub_topic e = topic ->
  (0 < min_interval_ticks e ->
   min_interval_ticks e <= wrap32 (now - last_delivery_tick e)) ->
  fires topic now e = true.
Proof.
  intros Htopic Hint. unfold fires.
  replace (sub_topic e =? topic) with true by lia. simpl.
  destruct (Z.ltb_spec 0 (min_interval_ticks e)) as [Hpos|]; [| done].
  simpl. specialize (Hint Hpos).
  by replace (wrap32 (now - last_delivery_tick e) <? min_interval_ticks e)
    with false by lia.
Qed.

(** With pairwise distinct ids, a delivery under the id of an entry was made
    from that entry, which the scan took, on a bus past its guards. *)
Lemma Publish_delivered_under_id (b : MessageBus.state) topic data size env e d :
  ids_distinct (MessageBus.subscribers_ b) ->
  e ∈ MessageBus.subscribers_ b ->
  d ∈ (MessageBus.Publish b topic data size env).2 ->
  sub_id (delivery_sub d) = sub_id e ->
  fires topic (wrap32 (env_tick env)) e = true /\
  delivery_sub d = set_last_delivery_tick e (wrap32 (env_tick env)) /\
  MessageBus.initialized_ b = true /\ env_take env = true.
Proof.
  intros Hnd He Hd Hid.
  assert (Hpast : MessageBus.initialized_ b = true /\ env_take env = true).
  { destruct (MessageBus.initialized_ b) eqn:Hinit;
      [destruct (env_take env) eqn:Htake; [done |] |];
      rewrite Publish_dropped in Hd by auto; by apply elem_of_nil in Hd. }
  apply Publish_delivery_origin in Hd as (e2 & He2 & Hf2 & Hd).
  rewrite Hd in Hid. simpl in Hid.
  assert (e2 = e) as -> by eauto using ids_distinct_same.
  done.
Qed.

Lemma fires_throttled topic now e :
  0 < min_interval_ticks e ->
  wrap32 (now - last_delivery_tick e) < min_interval_ticks e ->
  fires topic now e = false.
Proof.
  intros Hpos Hlt. unfold fires.
  replace (0 <? min_interval_ticks e) with true by lia.
  replace (wrap32 (now - last_delivery_tick e) <? min_interval_ticks e)
    with true by lia.
  by rewrite andb_false_r.
Qed.

Lemma fires_elapsed topic now e :
  0 < min_interval_ticks e ->
  fires topic now e = true ->
  min_interval_ticks e <= wrap32 (now - last_delivery_tick e).
Proof.
  intros Hpos Hf.
  destruct (Z.lt_ge_cases (wrap32 (now - last_delivery_tick e)) (min_interval_ticks e))
    as [Hlt|Hge]; [| done].
  rewrite (fires_throttled topic now e Hpos Hlt) in Hf. discriminate.
Qed.

(** C2: take an entry [e] of the registry with [min_interval_ticks = I > 0]
    on the published topic, and let [elapsed = now - last_delivery_tick] as
    the code computes it, in [uint32_t].  Write [e'] for the entry with the
    fields of [e] and [last_delivery_tick = now].
    - If [elapsed < I], [e] keeps its [last_delivery_tick], the deliveries
      are those of a registry without [e], and (ids being distinct) none
      carries the id of [e].
    - (Ids being distinct) a delivery under the id of [e] is made only when
      [elapsed >= I]; it is made from [e'], whose [last_delivery_tick] is
      [now], and the registry then holds [e'] in the place of [e].
    - If [elapsed >= I] on an initialized bus whose mutex is taken, the
      registry holds [e'] in the place of [e], and [e'] is called
      (Immediate) or scheduled (LvglAsync, allocations succeeding).
    An entry just registered by [Subscribe] has [last_delivery_tick = 0]:
    its first publish is throttled exactly when [now < I], and otherwise
    sets its [last_delivery_tick] to [now]. *)
Theorem Publish_throttle :
  (forall (b : MessageBus.state) topic data size env pre e post,
     MessageBus.subscribers_ b = pre ++ e :: post ->
     sub_topic e = topic ->
     0 < min_interval_ticks e ->
     let now := wrap32 (env_tick env) in
     let elapsed := wrap32 (now - last_delivery_tick e) in
     let e' := mkSubscriberEntry (sub_id e) (sub_topic e) (sub_callback e)
                 (sub_mode e) (min_interval_ticks e) now in
     let r := MessageBus.Publish b topic data size env in
     (elapsed < min_interval_ticks e ->
        MessageBus.subscribers_ r.1 !! length pre = Some e /\
        r.2 = (MessageBus.Publish (MessageBus.with_subscribers b (pre ++ post))
                 topic data size env).2 /\
        (ids_distinct (MessageBus.subscribers_ b) ->
         forall d, d ∈ r.2 -> sub_id (delivery_sub d) <> sub_id e)) /\
     (ids_distinct (MessageBus.subscribers_ b) ->
      forall d, d ∈ r.2 -> sub_id (delivery_sub d) = sub_id e ->
        min_interval_ticks e <= elapsed /\
        delivery_sub d = e' /\
        last_delivery_tick (delivery_sub d) = now /\
        MessageBus.subscribers_ r.1 !! length pre = Some e') /\
     (MessageBus.initialized_ b = true ->
      env_take env = true ->
      min_interval_ticks e <= elapsed ->
        MessageBus.subscribers_ r.1 !! length pre = Some e' /\
        (sub_mode e = Immediate ->
           Invoked e' (mkMessage topic data (MessageBus.clip b size) now) ∈ r.2) /\
        (sub_mode e = LvglAsync -> (forall i, env_malloc env i = true) ->
           exists bytes,
             Scheduled e' (mkAsyncPayload (sub_callback e) topic now
                             (MessageBus.clip b size) bytes) ∈ r.2))) /\
  (forall pdMS_TO_TICKS (b : MessageBus.state) topic f mode ms data size env,
     MessageBus.initialized_ b = true ->
     0 < ms ->
     0 < wrap32 (pdMS_TO_TICKS ms) ->
     let now := wrap32 (env_tick env) in
     let b1 := (MessageBus.Subscribe pdMS_TO_TICKS b topic (Some f) mode ms true).1 in
     let e0 := mkSubscriberEntry (MessageBus.next_id_ b) topic (Some f) mode
                 (wrap32 (pdMS_TO_TICKS ms)) 0 in
     let r := MessageBus.Publish b1 topic data size env in
     MessageBus.subscribers_ b1 = MessageBus.subscribers_ b ++ [e0] /\
     (now < wrap32 (pdMS_TO_TICKS ms) ->
        MessageBus.subscribers_ r.1 !! length (MessageBus.subscribers_ b) = Some e0 /\
        r.2 = (MessageBus.Publish
                 (MessageBus.with_subscribers b1 (MessageBus.subscribers_ b))
                 topic data size env).2) /\
     (env_take env = true ->
      wrap32 (pdMS_TO_TICKS ms) <= now ->
        MessageBus.subscribers_ r.1 !! length (MessageBus.subscribers_ b)
          = Some (mkSubscriberEntry (MessageBus.next_id_ b) topic (Some f) mode
                    (wrap32 (pdMS_TO_TICKS ms)) now))).
Proof.
  split.
  - intros b topic data size env pre e post Hsubs Htopic Hint now elapsed e' r.
    assert (He : e ∈ MessageBus.subscribers_ b).
    { rewrite Hsubs, elem_of_app. right. left. }
    assert (Hfire : min_interval_ticks e <= elapsed ->
                    fires topic (wrap32 (env_tick env)) e = true).
    { intros Hge. apply fires_of_conditions; [done |]. by intros _. }
    split; [| split].
    + intros Hlt.
      assert (Hf : fires topic (wrap32 (env_tick env)) e = false)
        by (by apply fires_throttled).
      destruct (Publish_passes_over b topic data size env pre e post Hsubs Hf)
        as [Hkeep Hsame].
      split; [exact Hkeep |]. split; [exact Hsame |].
      intros Hnd. by apply Publish_not_delivered.
    + intros Hnd d Hd Hid.
      destruct (Publish_delivered_under_id b topic data size env e d Hnd He Hd Hid)
        as (Hf & Hsub & Hinit & Htake).
      split; [by apply (fires_elapsed topic) |]. split; [exact Hsub |].
      split; [by rewrite Hsub |].
      by destruct (Publish_takes b topic data size env pre e post Hinit Htake Hsubs Hf)
        as (Hstamp & _).
    + intros Hinit Htake Hge.
      destruct (Publish_takes b topic data size env pre e post Hinit Htake Hsubs
                  (Hfire Hge))
        as (Hstamp & _ & Himm & Hasync).
      split; [exact Hstamp |]. split; [exact Himm |].
      intros Hmode Hok. apply Hasync; [exact Hmode | apply Hok].
  - intros pdMS_TO_TICKS b topic f mode ms data size env Hinit Hms Hticks
      now b1 e0 r.
    assert (Hb1 : MessageBus.subscribers_ b1 = MessageBus.subscribers_ b ++ [e0]).
    { subst b1 e0. rewrite Subscribe_registers by done. simpl.
      by replace (0 <? ms) with true by lia. }
    assert (Hinit1 : MessageBus.initialized_ b1 = true).
    { subst b1. by rewrite Subscribe_registers. }
    assert (Helapsed : wrap32 (now - last_delivery_tick e0) = now).
    { subst e0 now. simpl. rewrite Z.sub_0_r. unfold wrap32.
      apply Z.mod_mod. lia. }
    split; [exact Hb1 |]. split.
    + intros Hlt.
      assert (Hf : fires topic (wrap32 (env_tick env)) e0 = false).
      { apply fires_throttled; [done |]. fold now. by rewrite Helapsed. }
      pose proof (Publish_passes_over b1 topic data size env
                    (MessageBus.subscribers_ b) e0 [] Hb1 Hf) as [Hkeep Hsame].
      rewrite app_nil_r in Hsame. by split.
    + intros Htake Hge.
      assert (Hf : fires topic (wrap32 (env_tick env)) e0 = true).
      { apply fires_of_conditions; [done |]. intros _. fold now.
        by rewrite Helapsed. }
      by destruct (Publish_takes b1 topic data size env
                     (MessageBus.subscribers_ b) e0 [] Hinit1 Htake Hb1 Hf)
        as (Hstamp & _).
Qed.

Lemma Publish_throttle_witness :
  let e3 := mkSubscriberEntry 3 7 (Some (MsgFn 2)) LvglAsync 100 0 in
  (* tick 50: throttled *)
  (MessageBus.subscribers_ (MessageBus.Publish demo_bus 7 None 0 (at_tick 50)).1
     !! 2%nat = Some e3 /\
   forall d, d ∈ (MessageBus.Publish demo_bus 7 None 0 (at_tick 50)).2 ->
     sub_id (delivery_sub d) <> 3) /\
  (* tick 150: delivered, and only because 100 ticks have passed *)
  (MessageBus.subscribers_ (MessageBus.Publish demo_bus 7 None 0 (at_tick 150)).1
     !! 2%nat = Some (mkSubscriberEntry 3 7 (Some (MsgFn 2)) LvglAsync 100 150) /\
   (exists bytes,
      Scheduled (mkSubscriberEntry 3 7 (Some (MsgFn 2)) LvglAsync 100 150)
        (mkAsyncPayload (Some (MsgFn 2)) 7 150 0 bytes)
        ∈ (MessageBus.Publish demo_bus 7 None 0 (at_tick 150)).2) /\
   (forall d, d ∈ (MessageBus.Publish demo_bus 7 None 0 (at_tick 150)).2 ->
      sub_id (delivery_sub d) = 3 ->
      last_delivery_tick (delivery_sub d) = 150)) /\
  (* a subscription made now, first published to at tick 50 *)
  MessageBus.subscribers_
    (MessageBus.Publish
       (MessageBus.Subscribe ticks_100hz demo_bus 9 (Some (MsgFn 5)) Immediate 1000 true).1
       9 None 0 (at_tick 50)).1 !! 3%nat
    = Some (mkSubscriberEntry 4 9 (Some (MsgFn 5)) Immediate 100 0).
Proof.
  intros e3. destruct Publish_throttle as [Hthrottle Hfirst].
  split; [| split].
  - destruct (Hthrottle demo_bus 7 None 0 (at_tick 50)
                [mkSubscriberEntry 1 7 (Some (MsgFn 0)) Immediate 0 0;
                 mkSubscriberEntry 2 8 (Some (MsgFn 1)) LvglAsync 0 0]
                e3 [] eq_refl eq_refl eq_refl)
      as (Hskip & _ & _).
    destruct (Hskip eq_refl) as (Hkeep & _ & Hnone).
    split; [exact Hkeep | exact (Hnone demo_bus_ids_distinct)].
  - destruct (Hthrottle demo_bus 7 None 0 (at_tick 150)
                [mkSubscriberEntry 1 7 (Some (MsgFn 0)) Immediate 0 0;
                 mkSubscriberEntry 2 8 (Some (MsgFn 1)) LvglAsync 0 0]
                e3 [] eq_refl eq_refl eq_refl)
      as (_ & Honly & Hfire).
    destruct (Hfire eq_refl eq_refl ltac:(vm_compute; discriminate))
      as (Hstamp & _ & Hasync).
    split; [exact Hstamp |]. split; [exact (Hasync eq_refl (fun _ => eq_refl)) |].
    intros d Hd Hid.
    exact (proj1 (proj2 (proj2 (Honly demo_bus_ids_distinct d Hd Hid)))).
  - destruct (Hfirst ticks_100hz demo_bus 9 (MsgFn 5) Immediate 1000 None 0 (at_tick 50)
                eq_refl eq_refl eq_refl)
      as (_ & Hskip & _).
    exact (proj1 (Hskip eq_refl)).
Defined.

(** The scan changes no id. *)
Lemma scanned_ids topic now (subs : list SubscriberEntry) :
  sub_id <$> (scanned topic now <$> subs) = sub_id <$> subs.
Proof.
  induction subs as [|sub rest IH]; [done |].
  rewrite !fmap_cons, IH. f_equal. unfold scanned.
  by destruct (fires topic now sub).
Qed.

(** ** Allocation failure in the deferred path *)

(** The deliveries of a publish whose allocation for [e] fails: the rounds
    before it and the rounds after it. *)
Lemma Publish_round_dropped (b : MessageBus.state) topic data size env pre e post :
  MessageBus.initialized_ b = true ->
  env_take env = true ->
  MessageBus.subscribers_ b = pre ++ e :: post ->
  sub_mode e = LvglAsync ->
  fires topic (wrap32 (env_tick env)) e = true ->
  let now := wrap32 (env_tick env) in
  let stamp := fun sub => set_last_delivery_tick sub now in
  let k := length (List.filter (fires topic now) pre) in
  env_malloc env k = false ->
  (MessageBus.Publish b topic data size env).2 =
    MessageBus.deliver topic data (MessageBus.clip b size) now (env_malloc env) 0
      (stamp <$> List.filter (fires topic now) pre) ++
    MessageBus.deliver topic data (MessageBus.clip b size) now (env_malloc env) (S k)
      (stamp <$> List.filter (fires topic now) post).
Proof.
  intros Hinit Htake Hsubs Hmode Hf now stamp k Hfail.
  rewrite Publish_locked by done. simpl. fold now. fold stamp.
  rewrite Hsubs, List.filter_app. simpl. fold now in Hf. rewrite Hf.
  rewrite fmap_app, deliver_app. simpl. rewrite length_fmap. fold k.
  by rewrite Hmode, Hfail.
Qed.

(** C8: the entry [e] is deferred, on the published topic and past its
    throttle, and the allocation made for it fails.  Its
    [last_delivery_tick] is [now] all the same (the registry after
    [Publish] does not depend on the allocations); no delivery is made for
    it; every other entry of the snapshot is still called or, its own
    allocation succeeding, scheduled; and a later publish inside the
    interval counted from [now] passes over [e]. *)
Theorem Publish_alloc_failure (b : MessageBus.state) topic data size env pre e post :
  MessageBus.initialized_ b = true ->
  env_take env = true ->
  MessageBus.subscribers_ b = pre ++ e :: post ->
  sub_topic e = topic ->
  sub_mode e = LvglAsync ->
  let now := wrap32 (env_tick env) in
  (0 < min_interval_ticks e ->
   min_interval_ticks e <= wrap32 (now - last_delivery_tick e)) ->
  let e' := set_last_delivery_tick e now in
  let matches := (MessageBus.snapshot topic now (MessageBus.subscribers_ b)).2 in
  let k := length (MessageBus.snapshot topic now pre).2 in
  let r := MessageBus.Publish b topic data size env in
  env_malloc env k = false ->
  matches !! k = Some e' /\
  MessageBus.subscribers_ r.1 !! length pre = Some e' /\
  (forall env', env_tick env' = env_tick env -> env_take env' = true ->
     (MessageBus.Publish b topic data size env').1 = r.1) /\
  (ids_distinct (MessageBus.subscribers_ b) ->
   forall d, d ∈ r.2 -> sub_id (delivery_sub d) <> sub_id e) /\
  (forall j m, matches !! j = Some m -> j <> k ->
     (sub_mode m = Immediate ->
        Invoked m (mkMessage topic data (MessageBus.clip b size) now) ∈ r.2) /\
     (sub_mode m = LvglAsync -> env_malloc env j = true ->
        exists bytes,
          Scheduled m (mkAsyncPayload (sub_callback m) topic now
                         (MessageBus.clip b size) bytes) ∈ r.2)) /\
  (0 < min_interval_ticks e ->
   forall data2 size2 env2,
     env_take env2 = true ->
     wrap32 (wrap32 (env_tick env2) - now) < min_interval_ticks e ->
     let r2 := MessageBus.Publish r.1 topic data2 size2 env2 in
     MessageBus.subscribers_ r2.1 !! length pre = Some e' /\
     (ids_distinct (MessageBus.subscribers_ b) ->
      forall d, d ∈ r2.2 -> sub_id (delivery_sub d) <> sub_id e)).
Proof.
  intros Hinit Htake Hsubs Htopic Hmode now Hpast e' matches k r Hfail.
  assert (Hf : fires topic (wrap32 (env_tick env)) e = true)
    by (by apply fires_of_conditions).
  assert (Hk : k = length (List.filter (fires topic now) pre)).
  { subst k. rewrite snapshot_spec. simpl. by rewrite length_fmap. }
  destruct (Publish_takes b topic data size env pre e post Hinit Htake Hsubs Hf)
    as (Hstamp & Hslot & _ & _).
  fold now in Hslot. fold e' in Hslot. rewrite <- Hk in Hslot.
  assert (Hsubs' : MessageBus.subscribers_ r.1 =
            (scanned topic now <$> pre) ++ e' :: (scanned topic now <$> post)).
  { subst r. rewrite Publish_locked by done. simpl. rewrite Hsubs, fmap_app.
    rewrite fmap_cons. fold now. unfold scanned at 2. fold now in Hf.
    by rewrite Hf. }
  split; [exact Hslot |]. split; [exact Hstamp |]. split; [| split; [| split]].
  - intros env' Htick Htake'. subst r. rewrite !Publish_locked by done.
    simpl. by rewrite Htick.
  - intros Hnd d Hd Hid.
    pose proof (Publish_round_dropped b topic data size env pre e post
                  Hinit Htake Hsubs Hmode Hf) as Hdrop.
    cbv zeta in Hdrop. fold now in Hdrop. rewrite <- Hk in Hdrop.
    subst r. rewrite (Hdrop Hfail) in Hd.
    assert (Hin : exists e2, (e2 ∈ pre \/ e2 ∈ post) /\ sub_id e2 = sub_id e).
    { apply elem_of_app in Hd as [Hd | Hd]; apply deliver_sub in Hd;
        apply list_elem_of_fmap in Hd as (e2 & Hd & He2);
        apply list_elem_of_In, List.filter_In in He2 as [He2 _];
        apply list_elem_of_In in He2; exists e2; rewrite Hd in Hid; simpl in Hid;
        auto. }
    destruct Hin as (e2 & Hwhere & Hsame).
    unfold ids_distinct in Hnd. rewrite Hsubs, fmap_app in Hnd. simpl in Hnd.
    apply NoDup_app in Hnd as (_ & Hpre & Hpost).
    apply NoDup_cons in Hpost as [Hpost _].
    destruct Hwhere as [He2 | He2].
    + apply (Hpre (sub_id e)); [rewrite <- Hsame; by apply list_elem_of_fmap_2 | left].
    + apply Hpost. rewrite <- Hsame. by apply list_elem_of_fmap_2.
  - intros j m Hj Hne. subst r matches. rewrite snapshot_spec in Hj. simpl in Hj.
    rewrite Publish_locked by done. simpl. fold now.
    destruct (deliver_round topic data (MessageBus.clip b size) now (env_malloc env)
                _ 0%nat j m Hj) as [Himm Hasync].
    split; [exact Himm | exact Hasync].
  - intros Hpos data2 size2 env2 Htake2 Hinside r2.
    assert (Hf2 : fires topic (wrap32 (env_tick env2)) e' = false).
    { unfold fires. subst e'. simpl.
      replace (0 <? min_interval_ticks e) with true by lia.
      replace (wrap32 (wrap32 (env_tick env2) - now) <? min_interval_ticks e)
        with true by lia.
      by rewrite andb_false_r. }
    destruct (Publish_passes_over r.1 topic data2 size2 env2 _ e' _ Hsubs' Hf2)
      as [Hkeep _].
    rewrite length_fmap in Hkeep. split; [exact Hkeep |].
    intros Hnd d Hd.
    assert (Hnd' : ids_distinct (MessageBus.subscribers_ r.1)).
    { unfold ids_distinct in *. rewrite Hsubs'. rewrite Hsubs in Hnd.
      rewrite fmap_app in *. simpl in *. by rewrite !scanned_ids. }
    change (sub_id e) with (sub_id e').
    apply (Publish_not_delivered r.1 topic data2 size2 env2 e'); try done.
    rewrite Hsubs', elem_of_app. right. left.
Qed.

Lemma Publish_alloc_failure_witness :
  let e3' := mkSubscriberEntry 3 7 (Some (MsgFn 2)) LvglAsync 100 150 in
  let r := MessageBus.Publish demo_bus 7 (Some demo_bytes) 4 (at_tick_failing 150) in
  MessageBus.subscribers_ r.1 !! 2%nat = Some e3' /\
  (forall d, d ∈ r.2 -> sub_id (delivery_sub d) <> 3) /\
  Invoked (mkSubscriberEntry 1 7 (Some (MsgFn 0)) Immediate 0 150)
    (mkMessage 7 (Some demo_bytes) 4 150) ∈ r.2 /\
  MessageBus.subscribers_
    (MessageBus.Publish r.1 7 (Some demo_bytes) 4 (at_tick 200)).1 !! 2%nat
    = Some e3'.
Proof.
  intros e3' r.
  destruct (Publish_alloc_failure demo_bus 7 (Some demo_bytes) 4 (at_tick_failing 150)
              [mkSubscriberEntry 1 7 (Some (MsgFn 0)) Immediate 0 0;
               mkSubscriberEntry 2 8 (Some (MsgFn 1)) LvglAsync 0 0]
              (mkSubscriberEntry 3 7 (Some (MsgFn 2)) LvglAsync 100 0) []
              eq_refl eq_refl eq_refl eq_refl eq_refl
              ltac:(intros _; vm_compute; discriminate) eq_refl)
    as (_ & Hstamp & _ & Hnone & Hothers & Hwindow).
  split; [exact Hstamp |]. split; [exact (Hnone demo_bus_ids_distinct) |]. split.
  - exact (proj1 (Hothers 0%nat
                    (mkSubscriberEntry 1 7 (Some (MsgFn 0)) Immediate 0 150)
                    eq_refl ltac:(discriminate)) eq_refl).
  - exact (proj1 (Hwindow eq_refl (Some demo_bytes) 4 (at_tick 200) eq_refl eq_refl)).
Defined.

(** ** Oversized payloads and values *)

Lemma clip_idem (b : MessageBus.state) size :
  MessageBus.clip b (MessageBus.clip b size) = MessageBus.clip b size.
Proof.
  unfold MessageBus.clip.
  destruct (Z.ltb_spec (max_data_size (MessageBus.config_ b)) size) as [Hlt|Hge].
  - by rewrite Z.ltb_irrefl.
  - by replace (max_data_size (MessageBus.config_ b) <? size) with false by lia.
Qed.

Lemma Publish_clip (b : MessageBus.state) topic data size env :
  MessageBus.Publish b topic data size env =
  MessageBus.Publish b topic data (MessageBus.clip b size) env.
Proof. unfold MessageBus.Publish. by rewrite clip_idem. Qed.

Lemma Publish_delivery_size (b : MessageBus.state) topic data size env d :
  d ∈ (MessageBus.Publish b topic data size env).2 ->
  delivery_size d = MessageBus.clip b size.
Proof.
  destruct (MessageBus.initialized_ b) eqn:Hinit;
    [destruct (env_take env) eqn:Htake |].
  - rewrite Publish_locked by done. simpl. apply deliver_size.
  - rewrite Publish_dropped by auto. simpl. intros H. by apply elem_of_nil in H.
  - rewrite Publish_dropped by auto. simpl. intros H. by apply elem_of_nil in H.
Qed.

Lemma with_entries_same (s : DataStore.state) :
  DataStore.with_entries s (DataStore.entries_ s) = s.
Proof. by destruct s. Qed.

(** [SetRaw] stopped by one of its guards. *)
Lemma SetRaw_rejected (s : DataStore.state) bus key data size take env :
  DataStore.initialized_ s = false \/ data = None \/ size = 0 \/
  max_entry_size (DataStore.config_ s) < size \/ take = false ->
  DataStore.SetRaw s bus key data size take env = (s, bus, []).
Proof.
  intros Hguard. unfold DataStore.SetRaw.
  destruct (DataStore.initialized_ s) eqn:Hinit; simpl; [| done].
  destruct data as [buf|]; simpl; [| done].
  destruct (Z.eqb_spec size 0) as [Hz|Hnz]; [done |].
  destruct (Z.ltb_spec (max_entry_size (DataStore.config_ s)) size) as [Hbig|Hfit];
    [done |].
  destruct take; simpl; [| done].
  exfalso. destruct Hguard as [? | [? | [? | [? | ?]]]]; (discriminate || lia).
Qed.

(** [SetRaw] past its guards. *)
Lemma SetRaw_accepted (s : DataStore.state) bus key buf size env :
  DataStore.initialized_ s = true ->
  0 < size <= max_entry_size (DataStore.config_ s) ->
  DataStore.SetRaw s bus key (Some buf) size true env =
    let '(entries', changed) :=
      DataStore.store_value (DataStore.entries_ s) key buf size in
    if changed then
      let topic := wrap32 (DataStore.topic_base_ s + key) in
      (DataStore.with_entries s entries',
       (MessageBus.Publish bus topic (Some buf) size env).1,
       [PublishCall topic (Some buf) size
          (MessageBus.Publish bus topic (Some buf) size env).2])
    else (DataStore.with_entries s entries', bus, []).
Proof.
  intros Hinit Hsize. unfold DataStore.SetRaw. rewrite Hinit. simpl.
  replace (size =? 0) with false by lia.
  replace (max_entry_size (DataStore.config_ s) <? size) with false by lia.
  simpl. destruct (DataStore.store_value _ _ _ _) as [entries' changed].
  destruct changed; [| reflexivity].
  by destruct (MessageBus.Publish _ _ _ _ _).
Qed.

(** ** Change detection in the store *)

(** C1: let the value written be the [size] bytes at [buf].  If the entry
    stored under [key] has the same length and the same bytes, [SetRaw]
    gives back the store and the bus as they were and makes no [Publish].
    If the write is accepted (store initialized, [0 < size <=
    max_entry_size], mutex taken) and [key] is absent or holds other bytes,
    the entry becomes the value and [SetRaw] makes exactly one [Publish], on
    topic [topic_base_ + key] (in [uint32_t]) with that region and size. *)
Theorem SetRaw_change_detection (s : DataStore.state) bus key buf size take env :
  let value := read_bytes buf size in
  let topic := wrap32 (DataStore.topic_base_ s + key) in
  let r := DataStore.SetRaw s bus key (Some buf) size take env in
  (DataStore.entries_ s !! key = Some (mkEntry value) ->
   Z.of_nat (length value) = size ->
   r = (s, bus, [])) /\
  (DataStore.initialized_ s = true ->
   0 < size <= max_entry_size (DataStore.config_ s) ->
   take = true ->
   DataStore.entries_ s !! key = None \/
     (exists v, DataStore.entries_ s !! key = Some (mkEntry v) /\ v <> value) ->
   DataStore.entries_ r.1.1 !! key = Some (mkEntry value) /\
   r = (DataStore.with_entries s (<[key := mkEntry value]> (DataStore.entries_ s)),
        (MessageBus.Publish bus topic (Some buf) size env).1,
        [PublishCall topic (Some buf) size
           (MessageBus.Publish bus topic (Some buf) size env).2])).
Proof.
  intros value topic r. split.
  - intros Hstored Hlen. subst r.
    destruct (DataStore.initialized_ s) eqn:Hinit;
      [| apply SetRaw_rejected; auto].
    destruct (Z.eqb_spec size 0) as [Hz|Hnz]; [apply SetRaw_rejected; auto |].
    destruct (Z.ltb_spec (max_entry_size (DataStore.config_ s)) size) as [Hbig|Hfit];
      [apply SetRaw_rejected; auto |].
    destruct take; [| apply SetRaw_rejected; auto 6].
    rewrite SetRaw_accepted by (done || lia).
    unfold DataStore.store_value. rewrite Hstored. simpl.
    replace (Z.of_nat (length value) =? size) with true by lia.
    assert (Hcmp : memcmp value buf size = 0) by (by apply memcmp_same_value).
    rewrite Hcmp. simpl. by rewrite with_entries_same.
  - intros Hinit Hsize -> Hcase. subst r.
    rewrite SetRaw_accepted by done.
    assert (Hchanged :
      DataStore.store_value (DataStore.entries_ s) key buf size =
        (<[key := mkEntry value]> (DataStore.entries_ s), true)).
    { unfold DataStore.store_value.
      destruct Hcase as [-> | (v & -> & Hne)]; [reflexivity |]. simpl.
      destruct (Z.eqb_spec (Z.of_nat (length v)) size) as [Hlen|Hlen];
        [| reflexivity].
      simpl. destruct (Z.eqb_spec (memcmp v buf size) 0) as [Hcmp|Hcmp];
        [| reflexivity].
      apply memcmp_same_value in Hcmp; [| exact Hlen]. contradiction. }
    rewrite Hchanged. cbv zeta. fold topic. split; [| reflexivity].
    simpl. apply lookup_insert_eq.
Qed.

Lemma SetRaw_change_detection_witness :
  DataStore.SetRaw demo_store demo_bus 5 (Some demo_bytes) 4 true (at_tick 20)
    = (demo_store, demo_bus, []) /\
  DataStore.entries_
    (DataStore.SetRaw demo_store demo_bus 5 (Some other_bytes) 4 true (at_tick 20)).1.1
    !! 5 = Some (mkEntry other_bytes) /\
  DataStore.entries_
    (DataStore.SetRaw demo_store demo_bus 6 (Some demo_bytes) 4 true (at_tick 20)).1.1
    !! 6 = Some (mkEntry demo_bytes).
Proof.
  split; [| split].
  - apply (proj1 (SetRaw_change_detection demo_store demo_bus 5 demo_bytes 4 true
                    (at_tick 20))); reflexivity.
  - apply (proj2 (SetRaw_change_detection demo_store demo_bus 5 other_bytes 4 true
                    (at_tick 20)) eq_refl ltac:(vm_compute; split; [reflexivity | discriminate]) eq_refl).
    right. exists demo_bytes. split; [reflexivity | discriminate].
  - apply (proj2 (SetRaw_change_detection demo_store demo_bus 6 demo_bytes 4 true
                    (at_tick 20)) eq_refl ltac:(vm_compute; split; [reflexivity | discriminate]) eq_refl).
    left. reflexivity.
Defined.

(** C1 does not hold of every write.  [SetRaw] returns early, with the
    store as it was and no [Publish], when it does not obtain the mutex,
    when the store is not initialized, when [size] exceeds
    [max_entry_size] and when [size] is zero: so a write of other bytes
    than those stored under key 5, and writes to key 6, not yet present,
    neither update the entry nor publish. *)
Lemma SetRaw_change_detection_counterexample :
  (DataStore.entries_ demo_store !! 5 = Some (mkEntry demo_bytes) /\
   read_bytes other_bytes 4 <> demo_bytes /\
   DataStore.SetRaw demo_store demo_bus 5 (Some other_bytes) 4 false (at_tick 20)
     = (demo_store, demo_bus, [])) /\
  (DataStore.entries_ demo_store !! 6 = None /\
   DataStore.SetRaw demo_store demo_bus 6 (Some demo_bytes) 4 false (at_tick 20)
     = (demo_store, demo_bus, []) /\
   DataStore.SetRaw demo_store demo_bus 6 (Some demo_bytes) 0 true (at_tick 20)
     = (demo_store, demo_bus, [])) /\
  (DataStore.entries_ DataStore.fresh !! 6 = None /\
   DataStore.SetRaw DataStore.fresh demo_bus 6 (Some demo_bytes) 4 true (at_tick 20)
     = (DataStore.fresh, demo_bus, [])) /\
  (DataStore.entries_ small_store !! 6 = None /\
   max_entry_size (DataStore.config_ small_store) = 2 /\
   DataStore.SetRaw small_store demo_bus 6 (Some demo_bytes) 4 true (at_tick 20)
     = (small_store, demo_bus, [])).
Proof.
  split; [| split; [| split]].
  - split; [reflexivity |]. split; [discriminate | reflexivity].
  - split; [reflexivity |]. split; reflexivity.
  - split; reflexivity.
  - split; [reflexivity |]. split; reflexivity.
Qed.



(** C4: a [Publish] whose size exceeds [max_data_size] is the [Publish] of
    [max_data_size] bytes of the same region: same registry afterwards,
    same deliveries, each carrying [max_data_size] as its size, and an
    immediate entry that the scan takes is called with that size; [Publish]
    returns nothing to its caller.  A [SetRaw] whose size exceeds
    [max_entry_size] gives back the store and the bus as they were and
    makes no [Publish]. *)
Theorem oversize_asymmetry :
  (forall (b : MessageBus.state) topic data size env,
     max_data_size (MessageBus.config_ b) < size ->
     let limit := max_data_size (MessageBus.config_ b) in
     let now := wrap32 (env_tick env) in
     let r := MessageBus.Publish b topic data size env in
     r = MessageBus.Publish b topic data limit env /\
     (forall d, d ∈ r.2 -> delivery_size d = limit) /\
     (MessageBus.initialized_ b = true -> env_take env = true ->
      forall e, e ∈ MessageBus.subscribers_ b ->
        sub_topic e = topic -> min_interval_ticks e = 0 -> sub_mode e = Immediate ->
        Invoked (set_last_delivery_tick e now) (mkMessage topic data limit now) ∈ r.2)) /\
  (forall (s : DataStore.state) bus key data size take env,
     max_entry_size (DataStore.config_ s) < size ->
     DataStore.SetRaw s bus key data size take env = (s, bus, [])).
Proof.
  split.
  - intros b topic data size env Hbig limit now r.
    assert (Hclip : MessageBus.clip b size = limit).
    { subst limit. unfold MessageBus.clip.
      by replace (max_data_size (MessageBus.config_ b) <? size) with true by lia. }
    assert (Hclip' : MessageBus.clip b limit = limit).
    { rewrite <- Hclip at 1. by rewrite clip_idem. }
    split; [| split].
    + subst r. by rewrite Publish_clip, Hclip, (Publish_clip b topic data limit), Hclip'.
    + intros d Hd. apply Publish_delivery_size in Hd. by rewrite Hd.
    + intros Hinit Htake e He Htopic Hint Hmode.
      subst r. rewrite <- Hclip. by apply Publish_calls_immediate.
  - intros s bus key data size take env Hbig. apply SetRaw_rejected. auto.
Qed.

Lemma oversize_asymmetry_witness :
  MessageBus.Publish small_bus 7 (Some demo_bytes) 4 (at_tick 5)
    = MessageBus.Publish small_bus 7 (Some demo_bytes) 2 (at_tick 5) /\
  Invoked (mkSubscriberEntry 1 7 (Some (MsgFn 0)) Immediate 0 5)
    (mkMessage 7 (Some demo_bytes) 2 5)
    ∈ (MessageBus.Publish small_bus 7 (Some demo_bytes) 4 (at_tick 5)).2 /\
  DataStore.SetRaw small_store demo_bus 5 (Some demo_bytes) 4 true (at_tick 5)
    = (small_store, demo_bus, []).
Proof.
  destruct oversize_asymmetry as [Hpublish Hset].
  destruct (Hpublish small_bus 7 (Some demo_bytes) 4 (at_tick 5) eq_refl)
    as (Hsame & _ & Hcalled).
  split; [exact Hsame |]. split.
  - apply (Hcalled eq_refl eq_refl (mkSubscriberEntry 1 7 (Some (MsgFn 0)) Immediate 0 0));
      [left | reflexivity | reflexivity | reflexivity].
  - exact (Hset small_store demo_bus 5 (Some demo_bytes) 4 true (at_tick 5) eq_refl).
Defined.

(** ** Reading from the store *)

(** What holds of every store a client can bring about: nothing is stored
    before [Initialize] succeeds, and no stored value is empty. *)
Lemma store_reachable_inv (s : DataStore.state) :
  store_reachable s ->
  (DataStore.initialized_ s = false -> DataStore.entries_ s = ∅) /\
  (forall k e, DataStore.entries_ s !! k = Some e -> entry_data e <> []).
Proof.
  induction 1 as [| s config topic_base mutex_created Hs [IHempty IHvalues]
                  | s bus key data size take env Hs [IHempty IHvalues] Hsize Hregion
                  | s key take Hs [IHempty IHvalues]].
  - split; [done |]. intros k e. simpl. by rewrite lookup_empty.
  - unfold DataStore.Initialize.
    destruct (DataStore.initialized_ s) eqn:Hinit; simpl; [unchanged_store |].
    destruct mutex_created; simpl; split; auto.
  - destruct (DataStore.initialized_ s) eqn:Hinit;
      [| rewrite SetRaw_rejected by auto; unchanged_store].
    destruct data as [buf|]; [| rewrite SetRaw_rejected by auto; unchanged_store].
    destruct (Z.eqb_spec size 0) as [Hz|Hnz];
      [rewrite SetRaw_rejected by auto; unchanged_store |].
    destruct (Z.ltb_spec (max_entry_size (DataStore.config_ s)) size) as [Hbig|Hfit];
      [rewrite SetRaw_rejected by auto; unchanged_store |].
    destruct take; [| rewrite SetRaw_rejected by auto 6; unchanged_store].
    rewrite SetRaw_accepted by (done || lia).
    assert (Hvalue : read_bytes buf size <> []).
    { specialize (Hregion buf eq_refl). intros Hnil.
      apply (f_equal (fun l => Z.of_nat (length l))) in Hnil.
      rewrite read_bytes_length in Hnil by lia. simpl in Hnil. lia. }
    unfold DataStore.store_value.
    assert (Hins : forall k e,
              <[key := mkEntry (read_bytes buf size)]> (DataStore.entries_ s) !! k = Some e ->
              entry_data e <> []).
    { intros k e. destruct (decide (key = k)) as [->|Hne].
      - rewrite lookup_insert_eq. by intros [= <-].
      - rewrite lookup_insert_ne by done. apply IHvalues. }
    destruct (DataStore.entries_ s !! key) as [existing|] eqn:Hkey.
    + destruct (negb (Z.of_nat (length (entry_data existing)) =? size)
                || negb (memcmp (entry_data existing) buf size =? 0)); simpl.
      * split; [intros; congruence | exact Hins].
      * split; [intros; congruence | exact IHvalues].
    + simpl. split; [intros; congruence | exact Hins].
  - unfold DataStore.Remove.
    destruct (DataStore.initialized_ s) eqn:Hinit; simpl; [| unchanged_store].
    destruct take; simpl; [| unchanged_store].
    split; [intros; congruence |].
    intros k e Hk. apply lookup_delete_Some in Hk as [_ Hk]. eauto.
Qed.

(** [GetRaw] past its guards. *)
Lemma GetRaw_locked (s : DataStore.state) key buf size :
  DataStore.initialized_ s = true ->
  size <> 0 ->
  DataStore.GetRaw s key (Some buf) size true =
    match DataStore.entries_ s !! key with
    | Some e =>
        if Z.of_nat (length (entry_data e)) =? size
        then (true, Some (memcpy buf (entry_data e) size))
        else (false, Some buf)
    | None => (false, Some buf)
    end.
Proof.
  intros Hinit Hsize. unfold DataStore.GetRaw. rewrite Hinit. simpl.
  by replace (size =? 0) with false by lia.
Qed.

(** Whenever [GetRaw] answers [false], the region behind [out] is as it
    was. *)
Lemma GetRaw_false_untouched (s : DataStore.state) key out size take :
  (DataStore.GetRaw s key out size take).1 = false ->
  (DataStore.GetRaw s key out size take).2 = out.
Proof.
  unfold DataStore.GetRaw.
  destruct (negb (DataStore.initialized_ s) || negb (bool_decide (is_Some out))
            || (size =? 0)); [done |].
  destruct (negb take); [done |].
  destruct (DataStore.entries_ s !! key) as [e|]; [| done].
  by destruct (Z.of_nat (length (entry_data e)) =? size).
Qed.

Lemma memcpy_whole (dst src : list byte) size :
  Z.of_nat (length src) = size ->
  memcpy dst src size = src ++ skipn (Z.to_nat size) dst.
Proof.
  intros Hlen. unfold memcpy, read_bytes. f_equal. apply firstn_all2. lia.
Qed.

(** C6: on a store a client can bring about, with a non-null [out] and the
    mutex taken, [GetRaw] answers [true] exactly when [key] is present and
    its value has [size] bytes, and then the first [size] bytes behind
    [out] are the stored bytes (the rest is as before).  In every case in
    which it answers [false], the region behind [out] is as it was. *)
Theorem GetRaw_exact_size :
  (forall (s : DataStore.state) key buf size,
     store_reachable s ->
     let r := DataStore.GetRaw s key (Some buf) size true in
     (r.1 = true <->
      exists e, DataStore.entries_ s !! key = Some e /\
                Z.of_nat (length (entry_data e)) = size) /\
     (forall e, DataStore.entries_ s !! key = Some e ->
                Z.of_nat (length (entry_data e)) = size ->
                r = (true, Some (entry_data e ++ skipn (Z.to_nat size) buf)))) /\
  (forall (s : DataStore.state) key out size take,
     (DataStore.GetRaw s key out size take).1 = false ->
     (DataStore.GetRaw s key out size take).2 = out).
Proof.
  split; [| apply GetRaw_false_untouched].
  intros s key buf size Hreach r.
  destruct (store_reachable_inv s Hreach) as [Hempty Hvalues].
  assert (Hpresent : forall e,
            DataStore.entries_ s !! key = Some e ->
            Z.of_nat (length (entry_data e)) = size ->
            DataStore.initialized_ s = true /\ size <> 0).
  { intros e He Hlen. split.
    - destruct (DataStore.initialized_ s); [done |].
      rewrite Hempty in He by done. by rewrite lookup_empty in He.
    - intros ->. apply (Hvalues key e He). by destruct (entry_data e). }
  split; [split |].
  - subst r. unfold DataStore.GetRaw. simpl.
    destruct (DataStore.initialized_ s); simpl; [| discriminate].
    destruct (Z.eqb_spec size 0); simpl; [discriminate |].
    destruct (DataStore.entries_ s !! key) as [e|]; [| discriminate].
    destruct (Z.eqb_spec (Z.of_nat (length (entry_data e))) size); [| discriminate].
    intros _. by exists e.
  - intros (e & He & Hlen). destruct (Hpresent e He Hlen) as [Hinit Hsize].
    subst r. rewrite GetRaw_locked, He by done.
    by replace (Z.of_nat (length (entry_data e)) =? size) with true by lia.
  - intros e He Hlen. destruct (Hpresent e He Hlen) as [Hinit Hsize].
    subst r. rewrite GetRaw_locked, He by done.
    replace (Z.of_nat (length (entry_data e)) =? size) with true by lia.
    by rewrite memcpy_whole.
Qed.

Lemma demo_store_reachable : store_reachable demo_store.
Proof.
  unfold demo_store. apply reach_SetRaw.
  - apply reach_Initialize, reach_fresh.
  - lia.
  - intros buf [= <-]. simpl. lia.
Qed.

Lemma GetRaw_exact_size_witness :
  DataStore.GetRaw demo_store 5 (Some other_bytes) 4 true = (true, Some demo_bytes) /\
  ((DataStore.GetRaw demo_store 5 (Some other_bytes) 2 true).1 = true <->
   exists e, DataStore.entries_ demo_store !! 5 = Some e /\
             Z.of_nat (length (entry_data e)) = 2) /\
  (DataStore.GetRaw demo_store 5 (Some other_bytes) 2 true).2 = Some other_bytes.
Proof.
  destruct GetRaw_exact_size as [Hexact Hfalse].
  split; [| split].
  - exact (proj2 (Hexact demo_store 5 other_bytes 4 demo_store_reachable)
             (mkEntry demo_bytes) eq_refl eq_refl).
  - exact (proj1 (Hexact demo_store 5 other_bytes 2 demo_store_reachable)).
  - exact (Hfalse demo_store 5 (Some other_bytes) 2 true eq_refl).
Defined.

(** C6 does not hold of every call.  Key 5 of [demo_store] holds exactly
    4 bytes, yet [GetRaw] with size 4 answers [false] when it does not
    obtain the mutex, and when [out] is null. *)
Lemma GetRaw_exact_size_counterexample :
  DataStore.entries_ demo_store !! 5 = Some (mkEntry demo_bytes) /\
  Z.of_nat (length demo_bytes) = 4 /\
  DataStore.GetRaw demo_store 5 (Some other_bytes) 4 false
    = (false, Some other_bytes) /\
  DataStore.GetRaw demo_store 5 None 4 true = (false, None).
Proof. repeat split. Qed.



(** C10: when the store is uninitialized, [out] is null or [size] is zero,
    [GetRaw] answers [false] and leaves [out] as it was, and it does so
    whatever the map holds and whatever the mutex would answer: neither is
    consulted. *)
Theorem GetRaw_guards (s : DataStore.state) key out size take :
  DataStore.initialized_ s = false \/ out = None \/ size = 0 ->
  DataStore.GetRaw s key out size take = (false, out) /\
  (forall entries' take',
     DataStore.GetRaw (DataStore.with_entries s entries') key out size take'
       = (false, out)).
Proof.
  intros Hguard.
  assert (Hany : forall entries' take',
            DataStore.GetRaw (DataStore.with_entries s entries') key out size take'
              = (false, out)).
  { intros entries' take'. unfold DataStore.GetRaw. simpl.
    destruct Hguard as [-> | [-> | ->]]; simpl; [done | |].
    - by rewrite orb_true_r.
    - by rewrite orb_true_r. }
  split; [| exact Hany].
  rewrite <- (with_entries_same s) at 1. apply Hany.
Qed.

Lemma GetRaw_guards_witness :
  DataStore.GetRaw DataStore.fresh 5 (Some other_bytes) 4 true
    = (false, Some other_bytes) /\
  DataStore.GetRaw demo_store 5 None 4 true = (false, None) /\
  DataStore.GetRaw demo_store 5 (Some other_bytes) 0 true = (false, Some other_bytes).
Proof.
  split; [| split].
  - exact (proj1 (GetRaw_guards DataStore.fresh 5 (Some other_bytes) 4 true
                    (or_introl eq_refl))).
  - exact (proj1 (GetRaw_guards demo_store 5 None 4 true
                    (or_intror (or_introl eq_refl)))).
  - exact (proj1 (GetRaw_guards demo_store 5 (Some other_bytes) 0 true
                    (or_intror (or_intror eq_refl)))).
Defined.

(** ** Unwatch *)

(** C9: [Unwatch] looks at nothing of the store: for every state of it,
    initialized or not, the store is returned as it was and the bus is what
    [MessageBus::Unsubscribe] makes of it.  With the invalid id nothing
    changes; with a valid id, on an initialized bus whose mutex is taken,
    the first entry of that id leaves the registry. *)
Theorem Unwatch_forwards (s : DataStore.state) (bus : MessageBus.state) id take :
  DataStore.Unwatch s bus id take = (s, MessageBus.Unsubscribe bus id take) /\
  DataStore.Unwatch s bus kInvalidSubscription take = (s, bus) /\
  (MessageBus.initialized_ bus = true -> id <> kInvalidSubscription -> take = true ->
   DataStore.Unwatch s bus id take =
     (s, MessageBus.with_subscribers bus
           (MessageBus.erase_first id (MessageBus.subscribers_ bus)))).
Proof.
  split; [reflexivity |]. split; [reflexivity |].
  intros Hinit Hid ->. unfold DataStore.Unwatch, MessageBus.Unsubscribe.
  rewrite Hinit.
  by replace (id =? kInvalidSubscription) with false
    by (unfold kInvalidSubscription in *; lia).
Qed.

(** On the store as constructed, never initialized, [Unwatch] removes the
    subscription 2 of the bus. *)
Lemma Unwatch_forwards_witness :
  DataStore.initialized_ DataStore.fresh = false /\
  DataStore.Unwatch DataStore.fresh demo_bus 2 true =
    (DataStore.fresh,
     MessageBus.with_subscribers demo_bus
       [mkSubscriberEntry 1 7 (Some (MsgFn 0)) Immediate 0 0;
        mkSubscriberEntry 3 7 (Some (MsgFn 2)) LvglAsync 100 0]).
Proof.
  split; [reflexivity |].
  exact (proj2 (proj2 (Unwatch_forwards DataStore.fresh demo_bus 2 true))
           eq_refl ltac:(discriminate) eq_refl).
Defined.

(** ** Subscription ids *)

Lemma nth_id_range k : 1 <= nth_id k <= UINT32_MAX.
Proof.
  unfold nth_id, UINT32_MAX. change (2 ^ 32 - 1) with 4294967295.
  pose proof (Z.mod_pos_bound (Z.of_nat k) 4294967295). lia.
Qed.

(** The counter after [next_id_++] and the wrap-around guard. *)
Lemma next_id_step k :
  (if wrap32 (nth_id k + 1) =? kInvalidSubscription then 1 else wrap32 (nth_id k + 1))
  = nth_id (S k).
Proof.
  pose proof (nth_id_range k) as Hrange.
  assert (Hnext : nth_id (S k) = (nth_id k) mod UINT32_MAX + 1).
  { unfold nth_id. rewrite Nat2Z.inj_succ, <- Z.add_1_r.
    by rewrite Z.add_mod_idemp_l by (unfold UINT32_MAX; lia). }
  rewrite Hnext. unfold wrap32, kInvalidSubscription, UINT32_MAX in *.
  change (2 ^ 32 - 1) with 4294967295 in *.
  change (2 ^ 32) with 4294967296 in *.
  destruct (Z.eq_dec (nth_id k) 4294967295) as [Hlast|Hnot].
  - rewrite Hlast. reflexivity.
  - rewrite (Z.mod_small (nth_id k + 1)) by lia.
    rewrite (Z.mod_small (nth_id k)) by lia.
    by replace (nth_id k + 1 =? 0) with false by lia.
Qed.

(** A [Subscribe] either changes nothing and returns the invalid id, or
    appends one entry carrying the counter's value and returns it. *)
Lemma Subscribe_cases pdMS_TO_TICKS (b : MessageBus.state) topic cb mode ms take :
  let r := MessageBus.Subscribe pdMS_TO_TICKS b topic cb mode ms take in
  r = (b, kInvalidSubscription) \/
  (exists e,
     MessageBus.subscribers_ r.1 = MessageBus.subscribers_ b ++ [e] /\
     sub_id e = MessageBus.next_id_ b /\
     r.2 = MessageBus.next_id_ b /\
     MessageBus.next_id_ r.1 =
       (if wrap32 (MessageBus.next_id_ b + 1) =? kInvalidSubscription then 1
        else wrap32 (MessageBus.next_id_ b + 1))).
Proof.
  intros r. subst r. unfold MessageBus.Subscribe.
  destruct (negb (MessageBus.initialized_ b) || negb (bool_decide (is_Some cb)));
    [by left |].
  destruct (negb take); [by left |].
  right. eexists. simpl. eauto.
Qed.

Lemma Publish_next_id (b : MessageBus.state) topic data size env :
  MessageBus.next_id_ (MessageBus.Publish b topic data size env).1
  = MessageBus.next_id_ b.
Proof.
  unfold MessageBus.Publish.
  destruct (negb (MessageBus.initialized_ b)); [done |].
  destruct (negb (env_take env)); [done |].
  by destruct (MessageBus.snapshot _ _ _).
Qed.

Lemma Unsubscribe_next_id (b : MessageBus.state) id take :
  MessageBus.next_id_ (MessageBus.Unsubscribe b id take) = MessageBus.next_id_ b.
Proof.
  unfold MessageBus.Unsubscribe.
  destruct ((id =? kInvalidSubscription) || negb (MessageBus.initialized_ b));
    [done |].
  by destruct (negb take).
Qed.

(** One call, seen from the counter: either it is a registering
    [Subscribe], which returns the counter's value and moves the counter on,
    or it hands out no id and leaves the counter. *)
Lemma call_counter pdMS_TO_TICKS (b : MessageBus.state) (c : BusCall) n :
  MessageBus.next_id_ b = nth_id n ->
  let r := call pdMS_TO_TICKS b c in
  (r.2 = RetSubscribe (nth_id n) true /\ MessageBus.next_id_ r.1 = nth_id (S n)) \/
  ((forall rets, issued_ids (r.2 :: rets) = issued_ids rets) /\
   (forall id registered,
      r.2 = RetSubscribe id registered ->
      registered = false /\ id = kInvalidSubscription) /\
   MessageBus.next_id_ r.1 = nth_id n).
Proof.
  intros Hnext r. subst r.
  destruct c as [config created | topic cb mode ms take | id take
                | topic data size env]; simpl.
  - right. unfold MessageBus.Initialize.
    destruct (MessageBus.initialized_ b), created; simpl; by repeat split.
  - destruct (Subscribe_cases pdMS_TO_TICKS b topic cb mode ms take)
      as [Hfail | (e & Hsubs & _ & Hid & Hcounter)].
    + rewrite Hfail. simpl. rewrite Nat.ltb_irrefl. right.
      split; [done |]. split; [| done]. by intros id registered [= <- <-].
    + destruct (MessageBus.Subscribe pdMS_TO_TICKS b topic cb mode ms take)
        as [b' id']. simpl in *. left.
      rewrite Hsubs, length_app. simpl.
      replace (length (MessageBus.subscribers_ b) <?
               length (MessageBus.subscribers_ b) + 1)%nat with true
        by (symmetry; apply Nat.ltb_lt; lia).
      rewrite Hcounter, Hid, Hnext. split; [done |]. apply next_id_step.
  - right. rewrite Unsubscribe_next_id. by repeat split.
  - pose proof (Publish_next_id b topic data size env) as Hkeep.
    destruct (MessageBus.Publish b topic data size env) as [b' deliveries].
    simpl in *. right. rewrite Hkeep. by repeat split.
Qed.

(** The ids handed out along a run continue the counter's cycle. *)
Lemma run_issued_ids pdMS_TO_TICKS (calls : list BusCall) :
  forall (b : MessageBus.state) n,
    MessageBus.next_id_ b = nth_id n ->
    let r := run pdMS_TO_TICKS b calls in
    issued_ids r.2 = nth_id <$> seq n (length (issued_ids r.2)) /\
    MessageBus.next_id_ r.1 = nth_id (n + length (issued_ids r.2)) /\
    (forall id registered,
       RetSubscribe id registered ∈ r.2 ->
       (registered = true -> id <> kInvalidSubscription) /\
       (registered = false -> id = kInvalidSubscription)).
Proof.
  induction calls as [|c rest IH]; intros b n Hnext; simpl.
  - rewrite Nat.add_0_r. split; [done |]. split; [done |].
    intros id registered H. by apply elem_of_nil in H.
  - pose proof (call_counter pdMS_TO_TICKS b c n Hnext) as Hstep.
    destruct (call pdMS_TO_TICKS b c) as [b1 ret].
    cbv zeta in Hstep. cbn [fst snd] in Hstep.
    destruct Hstep as [[-> Hnext1] | (Hsame & Hret & Hnext1)].
    + specialize (IH b1 (S n) Hnext1).
      destruct (run pdMS_TO_TICKS b1 rest) as [b2 rets].
      cbv zeta in IH. cbn [fst snd] in *. destruct IH as (IHids & IHnext & IHrets).
      split; [| split].
      * simpl. f_equal. exact IHids.
      * simpl. rewrite IHnext. f_equal. lia.
      * intros id registered [[= -> ->] | Hin]%elem_of_cons; [| by apply IHrets].
        split; [| discriminate]. intros _.
        pose proof (nth_id_range n). unfold kInvalidSubscription. lia.
    + specialize (IH b1 n Hnext1).
      destruct (run pdMS_TO_TICKS b1 rest) as [b2 rets].
      cbv zeta in IH. cbn [fst snd] in *. destruct IH as (IHids & IHnext & IHrets).
      split; [| split].
      * by rewrite Hsame.
      * by rewrite Hsame.
      * intros id registered [Heq | Hin]%elem_of_cons; [| by apply IHrets].
        symmetry in Heq. destruct (Hret id registered Heq) as [-> ->].
        split; [discriminate | done].
Qed.

Lemma nth_id_small k : Z.of_nat k < UINT32_MAX -> nth_id k = Z.of_nat k + 1.
Proof.
  intros Hk. unfold nth_id. rewrite Z.mod_small by lia. reflexivity.
Qed.

(** Before the counter has gone round, no id was handed out twice. *)
Lemma issued_ids_distinct pdMS_TO_TICKS (calls : list BusCall) :
  let ids := issued_ids (run pdMS_TO_TICKS MessageBus.fresh calls).2 in
  Z.of_nat (length ids) <= UINT32_MAX -> NoDup ids.
Proof.
  intros ids Hlen.
  destruct (run_issued_ids pdMS_TO_TICKS calls MessageBus.fresh 0 eq_refl)
    as (Hids & _ & _).
  fold ids in Hids. rewrite Hids.
  apply NoDup_fmap_2_strong; [| apply NoDup_seq].
  intros i j Hi Hj Heq.
  apply elem_of_seq in Hi. apply elem_of_seq in Hj.
  rewrite !nth_id_small in Heq by lia. lia.
Qed.

Lemma erase_first_ids_sublist id (subs : list SubscriberEntry) :
  (sub_id <$> MessageBus.erase_first id subs) `sublist_of` (sub_id <$> subs).
Proof.
  induction subs as [|sub rest IH]; [done |].
  cbn [MessageBus.erase_first]. destruct (sub_id sub =? id).
  - rewrite fmap_cons. by apply sublist_cons.
  - rewrite !fmap_cons. by apply sublist_skip.
Qed.

Lemma issued_ids_cons ret rets :
  issued_ids (ret :: rets) = issued_ids [ret] ++ issued_ids rets.
Proof. destruct ret as [| id [|] | |]; reflexivity. Qed.

(** The ids in the registry are among those it held plus those handed out
    since, in that order. *)
Lemma run_ids_sublist pdMS_TO_TICKS (calls : list BusCall) :
  forall b : MessageBus.state,
    (sub_id <$> MessageBus.subscribers_ (run pdMS_TO_TICKS b calls).1)
      `sublist_of`
    (sub_id <$> MessageBus.subscribers_ b) ++ issued_ids (run pdMS_TO_TICKS b calls).2.
Proof.
  induction calls as [|c rest IH]; intros b; simpl.
  - by rewrite app_nil_r.
  - assert (Hcall :
      (sub_id <$> MessageBus.subscribers_ (call pdMS_TO_TICKS b c).1)
        `sublist_of`
      (sub_id <$> MessageBus.subscribers_ b) ++ issued_ids [(call pdMS_TO_TICKS b c).2]).
    { destruct c as [config created | topic cb mode ms take | id take
                    | topic data size env]; simpl.
      - unfold MessageBus.Initialize.
        destruct (MessageBus.initialized_ b), created; simpl; by rewrite app_nil_r.
      - destruct (Subscribe_cases pdMS_TO_TICKS b topic cb mode ms take)
          as [Hfail | (e & Hsubs & He & Hid & _)].
        + rewrite Hfail. simpl. rewrite Nat.ltb_irrefl. simpl. by rewrite app_nil_r.
        + destruct (MessageBus.Subscribe pdMS_TO_TICKS b topic cb mode ms take)
            as [b' id1]. simpl in *.
          rewrite Hsubs, length_app. simpl.
          replace (length (MessageBus.subscribers_ b) <?
                   length (MessageBus.subscribers_ b) + 1)%nat with true
            by (symmetry; apply Nat.ltb_lt; lia).
          simpl. rewrite fmap_app. simpl. by rewrite He, Hid.
      - rewrite app_nil_r. unfold MessageBus.Unsubscribe.
        destruct ((id =? kInvalidSubscription) || negb (MessageBus.initialized_ b));
          [done |].
        destruct (negb take); [done |]. simpl. apply erase_first_ids_sublist.
      - destruct (MessageBus.initialized_ b) eqn:Hinit;
          [destruct (env_take env) eqn:Htake |].
        + pose proof (Publish_locked b topic data size env Hinit Htake) as Hp.
          destruct (MessageBus.Publish b topic data size env) as [b' ds].
          injection Hp as -> _. simpl. by rewrite app_nil_r, scanned_ids.
        + pose proof (Publish_dropped b topic data size env (or_intror Htake)) as Hp.
          destruct (MessageBus.Publish b topic data size env) as [b' ds].
          injection Hp as -> _. simpl. by rewrite app_nil_r.
        + pose proof (Publish_dropped b topic data size env (or_introl Hinit)) as Hp.
          destruct (MessageBus.Publish b topic data size env) as [b' ds].
          injection Hp as -> _. simpl. by rewrite app_nil_r. }
    destruct (call pdMS_TO_TICKS b c) as [b1 ret]. specialize (IH b1).
    destruct (run pdMS_TO_TICKS b1 rest) as [b2 rets]. cbn [fst snd] in *.
    rewrite issued_ids_cons, app_assoc.
    etrans; [exact IH |]. by apply sublist_app.
Qed.

(** Until the counter has gone round, the ids of the registry are pairwise
    distinct. *)
Lemma run_ids_distinct pdMS_TO_TICKS (calls : list BusCall) :
  Z.of_nat (length (issued_ids (run pdMS_TO_TICKS MessageBus.fresh calls).2))
    <= UINT32_MAX ->
  ids_distinct (MessageBus.subscribers_ (run pdMS_TO_TICKS MessageBus.fresh calls).1).
Proof.
  intros Hlen. unfold ids_distinct.
  eapply sublist_NoDup; [| apply run_ids_sublist].
  simpl. by apply issued_ids_distinct.
Qed.

(** C7: along every sequence of calls on the bus as constructed, the ids
    returned by the registering [Subscribe] calls are, in order,
    [1, 2, ..., UINT32_MAX, 1, 2, ...]: each is nonzero, each is its
    predecessor plus one except that 1 follows [UINT32_MAX] (0 is skipped),
    and the first [UINT32_MAX] of them are pairwise distinct.  A [Subscribe]
    that registers never returns the invalid id; one that does not,
    returns it.  In one step: a registering [Subscribe] returns the
    counter and moves it to the next value, from [UINT32_MAX] to 1. *)
Theorem Subscribe_ids :
  (forall pdMS_TO_TICKS (calls : list BusCall),
     let rets := (run pdMS_TO_TICKS MessageBus.fresh calls).2 in
     let ids := issued_ids rets in
     (forall k id, ids !! k = Some id ->
        id = nth_id k /\ id <> kInvalidSubscription /\ 1 <= id <= UINT32_MAX) /\
     (forall k a b, ids !! k = Some a -> ids !! S k = Some b ->
        (a < UINT32_MAX /\ b = a + 1) \/ (a = UINT32_MAX /\ b = 1)) /\
     (Z.of_nat (length ids) <= UINT32_MAX -> NoDup ids) /\
     (forall id registered, RetSubscribe id registered ∈ rets ->
        (registered = true -> id <> kInvalidSubscription) /\
        (registered = false -> id = kInvalidSubscription))) /\
  (forall pdMS_TO_TICKS (b : MessageBus.state) topic f mode ms,
     MessageBus.initialized_ b = true ->
     1 <= MessageBus.next_id_ b <= UINT32_MAX ->
     let r := MessageBus.Subscribe pdMS_TO_TICKS b topic (Some f) mode ms true in
     r.2 = MessageBus.next_id_ b /\
     r.2 <> kInvalidSubscription /\
     MessageBus.next_id_ r.1 =
       (if MessageBus.next_id_ b =? UINT32_MAX then 1 else MessageBus.next_id_ b + 1)).
Proof.
  split.
  - intros pdMS_TO_TICKS calls rets ids.
    destruct (run_issued_ids pdMS_TO_TICKS calls MessageBus.fresh 0 eq_refl)
      as (Hids & _ & Hrets).
    fold rets in Hids, Hrets. fold ids in Hids.
    assert (Hnth : forall k id, ids !! k = Some id -> id = nth_id k).
    { intros k id Hk. rewrite Hids in Hk.
      apply list_lookup_fmap_Some in Hk as (j & -> & Hj).
      apply lookup_seq in Hj as [-> _]. reflexivity. }
    split; [| split; [| split]].
    + intros k id Hk. apply Hnth in Hk as ->.
      pose proof (nth_id_range k). unfold kInvalidSubscription. repeat split; lia.
    + intros k a b Ha Hb. apply Hnth in Ha as ->. apply Hnth in Hb as ->.
      pose proof (nth_id_range k) as Hrange.
      pose proof (next_id_step k) as Hstep.
      unfold wrap32, kInvalidSubscription, UINT32_MAX in *.
      change (2 ^ 32 - 1) with 4294967295 in *.
      change (2 ^ 32) with 4294967296 in *.
      destruct (Z.eq_dec (nth_id k) 4294967295) as [Hlast|Hnot].
      * right. split; [done |]. rewrite <- Hstep, Hlast. reflexivity.
      * left. split; [lia |]. rewrite <- Hstep.
        rewrite (Z.mod_small (nth_id k + 1)) by lia.
        by replace (nth_id k + 1 =? 0) with false by lia.
    + apply issued_ids_distinct.
    + exact Hrets.
  - intros pdMS_TO_TICKS b topic f mode ms Hinit Hrange r. subst r.
    rewrite Subscribe_registers by done. simpl.
    unfold wrap32, kInvalidSubscription, UINT32_MAX in *.
    change (2 ^ 32 - 1) with 4294967295 in *.
    change (2 ^ 32) with 4294967296 in *.
    split; [done |]. split; [lia |].
    destruct (Z.eqb_spec (MessageBus.next_id_ b) 4294967295) as [Hlast|Hnot].
    + rewrite Hlast. reflexivity.
    + rewrite (Z.mod_small (MessageBus.next_id_ b + 1)) by lia.
      by replace (MessageBus.next_id_ b + 1 =? 0) with false by lia.
Qed.

Lemma Subscribe_ids_witness :
  issued_ids (run ticks_100hz MessageBus.fresh demo_calls).2 = [1; 2; 3] /\
  NoDup (issued_ids (run ticks_100hz MessageBus.fresh demo_calls).2) /\
  (MessageBus.Subscribe ticks_100hz last_id_bus 7 (Some (MsgFn 0)) Immediate 0 true).2
    = 4294967295 /\
  MessageBus.next_id_
    (MessageBus.Subscribe ticks_100hz last_id_bus 7 (Some (MsgFn 0)) Immediate 0 true).1
    = 1.
Proof.
  destruct Subscribe_ids as [Hrun Hstep].
  destruct (Hrun ticks_100hz demo_calls) as (_ & _ & Hdistinct & _).
  destruct (Hstep ticks_100hz last_id_bus 7 (MsgFn 0) Immediate 0 eq_refl
              ltac:(vm_compute; split; discriminate))
    as (Hid & _ & Hnext).
  split; [reflexivity |]. split; [| split].
  - apply Hdistinct. vm_compute. discriminate.
  - exact Hid.
  - exact Hnext.
Defined.

(** ** Unsubscribe *)

Lemma erase_first_subset id (subs : list SubscriberEntry) e :
  e ∈ MessageBus.erase_first id subs -> e ∈ subs.
Proof.
  induction subs as [|sub rest IH]; simpl; [done |].
  destruct (sub_id sub =? id).
  - intros He. by right.
  - intros [-> | He]%elem_of_cons; [left | right; auto].
Qed.

(** With pairwise distinct ids, erasing the first entry of an id leaves
    none. *)
Lemma erase_first_absent id (subs : list SubscriberEntry) e :
  ids_distinct subs -> e ∈ MessageBus.erase_first id subs -> sub_id e <> id.
Proof.
  unfold ids_distinct.
  induction subs as [|sub rest IH]; [intros _ H; by apply elem_of_nil in H |].
  cbn [MessageBus.erase_first]. rewrite fmap_cons.
  intros [Hfresh Hrest]%NoDup_cons.
  destruct (Z.eqb_spec (sub_id sub) id) as [Heq|Hne].
  - intros He Hid. apply Hfresh. rewrite Heq, <- Hid. by apply list_elem_of_fmap_2.
  - intros [-> | He]%elem_of_cons; [done | auto].
Qed.

Lemma erase_first_none id (subs : list SubscriberEntry) :
  (forall e, e ∈ subs -> sub_id e <> id) -> MessageBus.erase_first id subs = subs.
Proof.
  induction subs as [|sub rest IH]; simpl; [done |]. intros Hall.
  destruct (Z.eqb_spec (sub_id sub) id) as [Heq|Hne].
  - exfalso. apply (Hall sub); [left | done].
  - f_equal. apply IH. intros e He. apply Hall. by right.
Qed.

(** A registry that holds no entry of [id] makes no delivery under [id] and
    holds none afterwards, along any calls that do not hand [id] out
    again. *)
Lemma run_without_id pdMS_TO_TICKS id (calls : list BusCall) :
  forall b : MessageBus.state,
    (forall e, e ∈ MessageBus.subscribers_ b -> sub_id e <> id) ->
    id ∉ issued_ids (run pdMS_TO_TICKS b calls).2 ->
    (forall d, d ∈ all_deliveries (run pdMS_TO_TICKS b calls).2 ->
       sub_id (delivery_sub d) <> id) /\
    (forall e, e ∈ MessageBus.subscribers_ (run pdMS_TO_TICKS b calls).1 ->
       sub_id e <> id).
Proof.
  induction calls as [|c rest IH]; intros b Hnone; simpl.
  - intros _. split; [| done]. intros d H. by apply elem_of_nil in H.
  - destruct (call pdMS_TO_TICKS b c) as [b1 ret] eqn:Hcall.
    specialize (IH b1).
    destruct (run pdMS_TO_TICKS b1 rest) as [b2 rets]. cbn [fst snd] in *.
    destruct c as [config created | topic cb mode ms take | id' take
                  | topic data size env]; simpl in Hcall.
    + unfold MessageBus.Initialize in Hcall.
      destruct (MessageBus.initialized_ b), created; simpl in Hcall;
        injection Hcall as <- <-; simpl in *; auto.
    + destruct (Subscribe_cases pdMS_TO_TICKS b topic cb mode ms take)
        as [Hfail | (e & Hsubs & He & Hid & _)].
      * rewrite Hfail in Hcall. injection Hcall as <- <-.
        rewrite Nat.ltb_irrefl. simpl. auto.
      * destruct (MessageBus.Subscribe pdMS_TO_TICKS b topic cb mode ms take)
          as [b' id1]. simpl in *. injection Hcall as <- <-.
        rewrite Hsubs, length_app. simpl.
        replace (length (MessageBus.subscribers_ b) <?
                 length (MessageBus.subscribers_ b) + 1)%nat with true
          by (symmetry; apply Nat.ltb_lt; lia).
        simpl. intros [Hnew Hlater]%not_elem_of_cons. apply IH; [| done].
        rewrite Hsubs. intros e' [He' | ->%list_elem_of_singleton]%elem_of_app;
          [auto | congruence].
    + injection Hcall as <- <-. simpl. apply IH.
      unfold MessageBus.Unsubscribe.
      destruct ((id' =? kInvalidSubscription) || negb (MessageBus.initialized_ b));
        [done |].
      destruct (negb take); [done |]. simpl.
      intros e He. apply Hnone. by apply erase_first_subset in He.
    + pose proof (Publish_delivery_origin b topic data size env) as Horigin.
      assert (Hsubs : sub_id <$> MessageBus.subscribers_
                        (MessageBus.Publish b topic data size env).1
                      = sub_id <$> MessageBus.subscribers_ b).
      { destruct (MessageBus.initialized_ b) eqn:Hinit;
          [destruct (env_take env) eqn:Htake |].
        - rewrite Publish_locked by done. simpl. apply scanned_ids.
        - by rewrite Publish_dropped by auto.
        - by rewrite Publish_dropped by auto. }
      destruct (MessageBus.Publish b topic data size env) as [b' deliveries].
      simpl in *. injection Hcall as <- <-. simpl. intros Hlater.
      destruct IH as [IHd IHe]; [| done |].
      * intros e He Hid.
        assert (Hin : id ∈ sub_id <$> MessageBus.subscribers_ b').
        { rewrite <- Hid. by apply list_elem_of_fmap_2. }
        rewrite Hsubs in Hin. apply list_elem_of_fmap in Hin as (e0 & -> & He0).
        by apply (Hnone e0).
      * split; [| exact IHe].
        intros d [Hd | Hd]%elem_of_app; [| auto].
        destruct (Horigin d Hd) as (e & He & _ & ->). simpl. auto.
Qed.

(** The loop stops at the first entry of the id: were the registry to hold
    two entries of one id, which takes the counter going round, the second
    would stay. *)
Example erase_first_stops_at_first :
  MessageBus.erase_first 1
    [ mkSubscriberEntry 1 7 (Some (MsgFn 0)) Immediate 0 0;
      mkSubscriberEntry 1 7 (Some (MsgFn 1)) Immediate 0 0 ]
  = [ mkSubscriberEntry 1 7 (Some (MsgFn 1)) Immediate 0 0 ].
Proof. reflexivity. Qed.

Lemma erase_first_keeps id (subs : list SubscriberEntry) e :
  e ∈ subs -> sub_id e <> id -> e ∈ MessageBus.erase_first id subs.
Proof.
  induction subs as [|sub rest IH]; simpl; [done |].
  intros [-> | He]%elem_of_cons Hne.
  - replace (sub_id sub =? id) with false by lia. left.
  - destruct (sub_id sub =? id); [done | right; auto].
Qed.

(** [Unsubscribe] of a valid id, with the mutex, on an initialized bus whose
    ids are pairwise distinct. *)
Lemma Unsubscribe_removes (b : MessageBus.state) id :
  MessageBus.initialized_ b = true ->
  id <> kInvalidSubscription ->
  ids_distinct (MessageBus.subscribers_ b) ->
  let b1 := MessageBus.Unsubscribe b id true in
  (forall e, e ∈ MessageBus.subscribers_ b1 -> sub_id e <> id) /\
  (forall e, e ∈ MessageBus.subscribers_ b -> sub_id e <> id ->
     e ∈ MessageBus.subscribers_ b1) /\
  (forall take, MessageBus.Unsubscribe b1 id take = b1).
Proof.
  intros Hinit Hid Hnd b1.
  assert (Hb1 : b1 = MessageBus.with_subscribers b
                       (MessageBus.erase_first id (MessageBus.subscribers_ b))).
  { subst b1. unfold MessageBus.Unsubscribe. rewrite Hinit.
    by replace (id =? kInvalidSubscription) with false
      by (unfold kInvalidSubscription in *; lia). }
  assert (Hgone : forall e, e ∈ MessageBus.subscribers_ b1 -> sub_id e <> id).
  { rewrite Hb1. simpl. intros e He. by apply (erase_first_absent id _ e Hnd). }
  split; [exact Hgone |]. split.
  - rewrite Hb1. simpl. intros e He Hne. by apply erase_first_keeps.
  - intros take. unfold MessageBus.Unsubscribe at 1.
    destruct ((id =? kInvalidSubscription) || negb (MessageBus.initialized_ b1));
      [done |].
    destruct (negb take); [done |].
    rewrite erase_first_none by exact Hgone. apply with_subscribers_same.
Qed.

Lemma call_keeps_initialized pdMS_TO_TICKS (b : MessageBus.state) (c : BusCall) :
  MessageBus.initialized_ b = true ->
  MessageBus.initialized_ (call pdMS_TO_TICKS b c).1 = true.
Proof.
  intros Hinit.
  destruct c as [config created | topic cb mode ms take | id take
                | topic data size env]; simpl.
  - unfold MessageBus.Initialize. by rewrite Hinit.
  - unfold MessageBus.Subscribe. rewrite Hinit. simpl.
    destruct (negb (bool_decide (is_Some cb))); [done |].
    by destruct (negb take).
  - unfold MessageBus.Unsubscribe.
    destruct ((id =? kInvalidSubscription) || negb (MessageBus.initialized_ b));
      [done |].
    by destruct (negb take).
  - destruct (env_take env) eqn:Htake.
    + by rewrite Publish_locked.
    + by rewrite Publish_dropped by auto.
Qed.

Lemma run_keeps_initialized pdMS_TO_TICKS (calls : list BusCall) :
  forall b : MessageBus.state,
    MessageBus.initialized_ b = true ->
    MessageBus.initialized_ (run pdMS_TO_TICKS b calls).1 = true.
Proof.
  induction calls as [|c rest IH]; intros b Hinit; simpl; [done |].
  pose proof (call_keeps_initialized pdMS_TO_TICKS b c Hinit) as Hcall.
  destruct (call pdMS_TO_TICKS b c) as [b1 ret]. specialize (IH b1 Hcall).
  by destruct (run pdMS_TO_TICKS b1 rest) as [b2 rets].
Qed.

(** Only an initialized bus registers a subscription. *)
Lemma call_registering_initialized pdMS_TO_TICKS (b : MessageBus.state) c :
  issued_ids [(call pdMS_TO_TICKS b c).2] <> [] ->
  MessageBus.initialized_ b = true.
Proof.
  destruct (MessageBus.initialized_ b) eqn:Hinit; [done |]. intros Hissued.
  exfalso. apply Hissued.
  destruct c as [config created | topic cb mode ms take | id take
                | topic data size env]; simpl.
  - by destruct (MessageBus.Initialize b config created).
  - unfold MessageBus.Subscribe. rewrite Hinit. simpl. by rewrite Nat.ltb_irrefl.
  - done.
  - by destruct (MessageBus.Publish b topic data size env).
Qed.

Lemma run_issued_initialized pdMS_TO_TICKS (calls : list BusCall) :
  forall b : MessageBus.state,
    issued_ids (run pdMS_TO_TICKS b calls).2 <> [] ->
    MessageBus.initialized_ (run pdMS_TO_TICKS b calls).1 = true.
Proof.
  induction calls as [|c rest IH]; intros b; simpl; [done |].
  pose proof (call_registering_initialized pdMS_TO_TICKS b c) as Hreg.
  pose proof (call_keeps_initialized pdMS_TO_TICKS b c) as Hkeep.
  destruct (call pdMS_TO_TICKS b c) as [b1 ret].
  pose proof (run_keeps_initialized pdMS_TO_TICKS rest b1) as Hrest.
  specialize (IH b1).
  destruct (run pdMS_TO_TICKS b1 rest) as [b2 rets]. cbn [fst snd] in *.
  rewrite issued_ids_cons. intros Hissued.
  destruct (issued_ids [ret]) as [|id ids] eqn:Hret; [by apply IH |].
  apply Hrest, Hkeep, Hreg. done.
Qed.

(** An id handed out before is not handed out again while the counter has
    not gone round. *)
Lemma issued_once pdMS_TO_TICKS (before later : list BusCall) id take :
  let r0 := run pdMS_TO_TICKS MessageBus.fresh before in
  let r1 := run pdMS_TO_TICKS (MessageBus.Unsubscribe r0.1 id take) later in
  Z.of_nat (length (issued_ids r0.2) + length (issued_ids r1.2)) <= UINT32_MAX ->
  id ∈ issued_ids r0.2 ->
  id ∉ issued_ids r1.2.
Proof.
  intros r0 r1 Hround Hbefore Hlater.
  destruct (run_issued_ids pdMS_TO_TICKS before MessageBus.fresh 0 eq_refl)
    as (Hids0 & Hnext0 & _).
  fold r0 in Hids0, Hnext0.
  assert (Hnext1 : MessageBus.next_id_ (MessageBus.Unsubscribe r0.1 id take)
                   = nth_id (length (issued_ids r0.2)))
    by (by rewrite Unsubscribe_next_id, Hnext0).
  destruct (run_issued_ids pdMS_TO_TICKS later _ _ Hnext1) as (Hids1 & _ & _).
  fold r1 in Hids1.
  rewrite Hids0 in Hbefore. rewrite Hids1 in Hlater.
  apply list_elem_of_fmap in Hbefore as (i & -> & Hi).
  apply list_elem_of_fmap in Hlater as (j & Heq & Hj).
  apply elem_of_seq in Hi. apply elem_of_seq in Hj.
  rewrite !nth_id_small in Heq by lia. lia.
Qed.

Lemma erase_first_last id (subs : list SubscriberEntry) e :
  (forall x, x ∈ subs -> sub_id x <> id) -> sub_id e = id ->
  MessageBus.erase_first id (subs ++ [e]) = subs.
Proof.
  intros Hnone He. induction subs as [|sub rest IH]; simpl.
  - by replace (sub_id e =? id) with true by lia.
  - destruct (Z.eqb_spec (sub_id sub) id) as [Heq|Hne].
    + exfalso. apply (Hnone sub); [left | done].
    + f_equal. apply IH. intros x Hx. apply Hnone. by right.
Qed.

(** ** The id counter going round *)

Lemma churn_round_counter (b : MessageBus.state) :
  MessageBus.initialized_ b = true ->
  1 <= MessageBus.next_id_ b <= UINT32_MAX ->
  (forall e, e ∈ MessageBus.subscribers_ b -> sub_id e <> MessageBus.next_id_ b) ->
  churn_round b =
    MessageBus.mkState true (MessageBus.config_ b) (MessageBus.mutex_ b)
      (MessageBus.subscribers_ b)
      (if MessageBus.next_id_ b =? UINT32_MAX then 1 else MessageBus.next_id_ b + 1).
Proof.
  intros Hinit Hrange Hnone. unfold churn_round.
  rewrite Subscribe_registers by done.
  unfold MessageBus.Unsubscribe. cbn [MessageBus.initialized_].
  replace (MessageBus.next_id_ b =? kInvalidSubscription) with false
    by (unfold kInvalidSubscription; lia).
  cbn [negb orb]. unfold MessageBus.with_subscribers.
  cbn [MessageBus.initialized_ MessageBus.config_ MessageBus.mutex_
       MessageBus.subscribers_ MessageBus.next_id_].
  rewrite erase_first_last by done. f_equal.
  unfold wrap32, kInvalidSubscription, UINT32_MAX in *.
  change (2 ^ 32 - 1) with 4294967295 in *.
  change (2 ^ 32) with 4294967296 in *.
  destruct (Z.eqb_spec (MessageBus.next_id_ b) 4294967295) as [Hlast|Hnot].
  - rewrite Hlast. reflexivity.
  - rewrite (Z.mod_small (MessageBus.next_id_ b + 1)) by lia.
    by replace (MessageBus.next_id_ b + 1 =? 0) with false by lia.
Qed.

(** As long as the counter stays above the ids registered, [n] rounds
    leave the registry as it is and move the counter [n] steps, from
    [UINT32_MAX] to 1. *)
Lemma churn_counter n : forall (b : MessageBus.state),
  MessageBus.initialized_ b = true ->
  1 <= MessageBus.next_id_ b <= UINT32_MAX ->
  MessageBus.next_id_ b + Z.of_nat n <= UINT32_MAX + 1 ->
  (forall e, e ∈ MessageBus.subscribers_ b -> sub_id e < MessageBus.next_id_ b) ->
  churn n b =
    MessageBus.mkState true (MessageBus.config_ b) (MessageBus.mutex_ b)
      (MessageBus.subscribers_ b)
      (if MessageBus.next_id_ b + Z.of_nat n =? UINT32_MAX + 1 then 1
       else MessageBus.next_id_ b + Z.of_nat n).
Proof.
  induction n as [|n IH]; intros b Hinit Hrange Hroom Hbelow.
  - cbn [churn]. rewrite Z.add_0_r.
    replace (MessageBus.next_id_ b =? UINT32_MAX + 1) with false by lia.
    destruct b; simpl in *. by rewrite Hinit.
  - cbn [churn]. rewrite churn_round_counter; [| done | done |].
    2: { intros e He. specialize (Hbelow e He). lia. }
    destruct (Z.eqb_spec (MessageBus.next_id_ b) UINT32_MAX) as [Hlast|Hnot].
    + assert (n = 0%nat) as -> by lia. cbn [churn]. rewrite Hlast.
      by rewrite Z.eqb_refl.
    + rewrite IH; cbn [MessageBus.initialized_ MessageBus.config_ MessageBus.mutex_
                       MessageBus.subscribers_ MessageBus.next_id_].
      * f_equal.
        replace (MessageBus.next_id_ b + 1 + Z.of_nat n)
          with (MessageBus.next_id_ b + Z.of_nat (S n)) by lia.
        reflexivity.
      * done.
      * lia.
      * lia.
      * intros e He. specialize (Hbelow e He). lia.
Qed.

Lemma wrapped_bus_state :
  wrapped_bus =
    MessageBus.mkState true default_BusConfig true
      (MessageBus.subscribers_ demo_bus) 1.
Proof.
  unfold wrapped_bus. rewrite churn_counter.
  - rewrite Z2Nat.id by (unfold UINT32_MAX; lia). reflexivity.
  - reflexivity.
  - vm_compute. split; discriminate.
  - rewrite Z2Nat.id by (unfold UINT32_MAX; lia).
    change (MessageBus.next_id_ demo_bus) with 4. lia.
  - intros e He. apply list_elem_of_fmap_2 with (f := sub_id) in He.
    change (sub_id e ∈ [1; 2; 3]) in He.
    change (MessageBus.next_id_ demo_bus) with 4.
    repeat (apply elem_of_cons in He as [-> | He]; [lia |]).
    by apply elem_of_nil in He.
Qed.

(** C3: let [id] be an id that a [Subscribe] returned in a sequence of
    calls on the bus as constructed.  After [Unsubscribe(id)] has taken the
    mutex and returned, the registry holds no entry of [id] (and every
    other entry still), and along every later sequence of calls no
    [Publish] on any topic makes a delivery under [id], as long as the id
    counter has not gone round.  A second [Unsubscribe(id)] leaves the bus
    as it is, and so does [Unsubscribe] of the invalid id on any bus. *)
Theorem Unsubscribe_final pdMS_TO_TICKS (before later : list BusCall) id :
  let r0 := run pdMS_TO_TICKS MessageBus.fresh before in
  let b1 := MessageBus.Unsubscribe r0.1 id true in
  let r1 := run pdMS_TO_TICKS b1 later in
  Z.of_nat (length (issued_ids r0.2) + length (issued_ids r1.2)) <= UINT32_MAX ->
  id ∈ issued_ids r0.2 ->
  (forall e, e ∈ MessageBus.subscribers_ b1 -> sub_id e <> id) /\
  (forall e, e ∈ MessageBus.subscribers_ r0.1 -> sub_id e <> id ->
     e ∈ MessageBus.subscribers_ b1) /\
  (forall d, d ∈ all_deliveries r1.2 -> sub_id (delivery_sub d) <> id) /\
  (forall take, MessageBus.Unsubscribe b1 id take = b1) /\
  (forall (b0 : MessageBus.state) take,
     MessageBus.Unsubscribe b0 kInvalidSubscription take = b0).
Proof.
  intros r0 b1 r1 Hround Hissued.
  assert (Hinit : MessageBus.initialized_ r0.1 = true).
  { apply run_issued_initialized. intros Hnil. unfold r0 in Hissued.
    rewrite Hnil in Hissued. by apply elem_of_nil in Hissued. }
  assert (Hid : id <> kInvalidSubscription).
  { destruct (run_issued_ids pdMS_TO_TICKS before MessageBus.fresh 0 eq_refl)
      as (Hids & _ & _).
    fold r0 in Hids. rewrite Hids in Hissued.
    apply list_elem_of_fmap in Hissued as (k & -> & _).
    pose proof (nth_id_range k). unfold kInvalidSubscription. lia. }
  assert (Hnd : ids_distinct (MessageBus.subscribers_ r0.1)).
  { apply run_ids_distinct. fold r0. lia. }
  destruct (Unsubscribe_removes r0.1 id Hinit Hid Hnd) as (Hgone & Hkept & Hagain).
  split; [exact Hgone |]. split; [exact Hkept |]. split; [| split].
  - apply (run_without_id pdMS_TO_TICKS id later b1 Hgone).
    by apply issued_once.
  - exact Hagain.
  - intros b0 take. reflexivity.
Qed.

Lemma Unsubscribe_final_witness :
  let b1 := MessageBus.Unsubscribe demo_bus 1 true in
  sub_id <$> MessageBus.subscribers_ b1 = [2; 3] /\
  (forall d, d ∈ all_deliveries (run ticks_100hz b1 later_calls).2 ->
     sub_id (delivery_sub d) <> 1) /\
  MessageBus.Unsubscribe b1 1 true = b1 /\
  MessageBus.Unsubscribe demo_bus kInvalidSubscription true = demo_bus.
Proof.
  intros b1.
  destruct (Unsubscribe_final ticks_100hz demo_calls later_calls 1
              ltac:(vm_compute; discriminate) ltac:(left))
    as (_ & _ & Hnever & Hagain & Hinvalid).
  split; [reflexivity |]. split; [exact Hnever |]. split.
  - exact (Hagain true).
  - exact (Hinvalid demo_bus true).
Defined.

(** C3 does not hold of every [Unsubscribe] that returns.  When the call
    does not obtain the mutex, the entry stays: id 1 was returned by a
    [Subscribe] of [demo_calls], [Unsubscribe(1)] returns with the bus as
    it was, and the next [Publish] on topic 7 calls the callback of id 1.
    When the id counter has gone round, two entries share an id: on
    [wrapped_bus] a [Subscribe] returns 1 again, [Unsubscribe(1)] erases
    the older entry of id 1 only, and the next [Publish] on topic 7 calls
    the callback of the subscription just made, under id 1. *)
Lemma Unsubscribe_final_counterexample :
  (1 ∈ issued_ids (run ticks_100hz MessageBus.fresh demo_calls).2 /\
   MessageBus.Unsubscribe demo_bus 1 false = demo_bus /\
   Invoked (mkSubscriberEntry 1 7 (Some (MsgFn 0)) Immediate 0 50)
       (mkMessage 7 (Some demo_bytes) 4 50)
     ∈ (MessageBus.Publish (MessageBus.Unsubscribe demo_bus 1 false) 7
          (Some demo_bytes) 4 (at_tick 50)).2) /\
  (let r :=
     MessageBus.Subscribe ticks_100hz wrapped_bus 7 (Some (MsgFn 9)) Immediate 0 true in
   let b1 := MessageBus.Unsubscribe r.1 r.2 true in
   r.2 = 1 /\
   sub_id <$> MessageBus.subscribers_ r.1 = [1; 2; 3; 1] /\
   sub_id <$> MessageBus.subscribers_ b1 = [2; 3; 1] /\
   Invoked (mkSubscriberEntry 1 7 (Some (MsgFn 9)) Immediate 0 50)
       (mkMessage 7 (Some demo_bytes) 4 50)
     ∈ (MessageBus.Publish b1 7 (Some demo_bytes) 4 (at_tick 50)).2).
Proof.
  split.
  - split; [left |]. split; [reflexivity |]. vm_compute. left.
  - cbv zeta. rewrite wrapped_bus_state.
    split; [reflexivity |]. split; [reflexivity |]. split; [reflexivity |].
    vm_compute. left.
Qed.



(** ** The scenarios of the specification, run on the model *)

(** Subscribe on topic 7, Immediate; publish three times: three calls. *)
Example three_publishes_three_calls :
  length
    (all_deliveries
       (run ticks_100hz MessageBus.fresh
          [ CallInitialize default_BusConfig true;
            CallSubscribe 7 (Some (MsgFn 0)) Immediate 0 true;
            CallPublish 7 (Some demo_bytes) 4 (at_tick 1);
            CallPublish 7 (Some demo_bytes) 4 (at_tick 2);
            CallPublish 7 (Some demo_bytes) 4 (at_tick 3) ]).2)
  = 3%nat.
Proof. reflexivity. Qed.

(** Set(5, v) twice: one notification in all, on topic 0x8005. *)
Example same_value_twice_one_notification :
  let s0 := (DataStore.Initialize DataStore.fresh default_DataStoreConfig
               kDefaultTopicBase true).1 in
  let r1 := DataStore.SetRaw s0 demo_bus 5 (Some demo_bytes) 4 true (at_tick 10) in
  let r2 := DataStore.SetRaw r1.1.1 r1.1.2 5 (Some demo_bytes) 4 true (at_tick 11) in
  (exists deliveries,
     r1.2 = [PublishCall 0x8005 (Some demo_bytes) 4 deliveries]) /\
  r2.2 = [].
Proof. split; [eexists |]; reflexivity. Qed.

(** A deferred delivery, run later by the LVGL task, carries a copy of the
    bytes. *)
Example deferred_delivery_copies :
  exists sub payload,
    (MessageBus.Publish demo_bus 8 (Some demo_bytes) 4 (at_tick 1)).2
      = [Scheduled sub payload] /\
    MessageBus.LvglAsyncCb (Some payload)
      = Some (MsgFn 1, mkMessage 8 (Some demo_bytes) 4 1).
Proof. do 2 eexists. split; reflexivity. Qed.

(** * Further properties of the code *)

(** ** MessageBus::Initialize *)

(** [Initialize] returns [ESP_OK] exactly on a bus not yet initialized
    whose mutex could be created; the bus is then initialized with the
    given configuration, registry and counter untouched, and every later
    [Initialize] is refused with [ESP_ERR_INVALID_STATE] and changes
    nothing.  When the mutex cannot be created the bus stays
    uninitialized and a later attempt can still succeed. *)
Theorem Initialize_once (b : MessageBus.state) config created config' created' :
  let r := MessageBus.Initialize b config created in
  (r.2 = ESP_OK <-> MessageBus.initialized_ b = false /\ created = true) /\
  (r.2 = ESP_OK ->
     r.1 = MessageBus.mkState true config true
             (MessageBus.subscribers_ b) (MessageBus.next_id_ b) /\
     MessageBus.Initialize r.1 config' created' = (r.1, ESP_ERR_INVALID_STATE)) /\
  (MessageBus.initialized_ b = true -> r = (b, ESP_ERR_INVALID_STATE)) /\
  (MessageBus.initialized_ b = false -> created = false ->
     r.2 = ESP_ERR_NO_MEM /\ MessageBus.initialized_ r.1 = false /\
     (MessageBus.Initialize r.1 config' true).2 = ESP_OK).
Proof.
  intros r. subst r. unfold MessageBus.Initialize.
  destruct (MessageBus.initialized_ b) eqn:Hinit, created; simpl;
    repeat split; try done; try (intros [? ?]; done).
Qed.

Lemma Initialize_once_witness :
  (MessageBus.Initialize MessageBus.fresh (mkBusConfig 4 2) true).2 = ESP_OK /\
  MessageBus.Initialize demo_bus (mkBusConfig 4 2) true
    = (demo_bus, ESP_ERR_INVALID_STATE) /\
  (MessageBus.Initialize
     (MessageBus.Initialize MessageBus.fresh (mkBusConfig 4 2) false).1
     default_BusConfig true).2 = ESP_OK.
Proof.
  split; [| split].
  - apply (proj1 (Initialize_once MessageBus.fresh (mkBusConfig 4 2) true
                    default_BusConfig true)).
    split; reflexivity.
  - exact (proj1 (proj2 (proj2 (Initialize_once demo_bus (mkBusConfig 4 2) true
                                  default_BusConfig true))) eq_refl).
  - exact (proj2 (proj2 (proj2 (proj2 (proj2
             (Initialize_once MessageBus.fresh (mkBusConfig 4 2) false
                default_BusConfig true))) eq_refl eq_refl))).
Defined.

(** ** MessageBus::Subscribe *)

(** [Subscribe] returns the invalid id exactly when the bus is not
    initialized, the callback is empty or the mutex is not obtained; the
    bus is then as it was: a refused [Subscribe] uses up no id. *)
Theorem Subscribe_refused pdMS_TO_TICKS (b : MessageBus.state) topic cb mode ms take :
  MessageBus.next_id_ b <> kInvalidSubscription ->
  let r := MessageBus.Subscribe pdMS_TO_TICKS b topic cb mode ms take in
  (r.2 = kInvalidSubscription <->
   MessageBus.initialized_ b = false \/ cb = None \/ take = false) /\
  (r.2 = kInvalidSubscription -> r.1 = b).
Proof.
  intros Hnext r. subst r. unfold MessageBus.Subscribe.
  destruct (MessageBus.initialized_ b), cb as [f|], take; simpl;
    split; try done; split; intros H; try done; auto;
    destruct H as [? | [? | ?]]; done.
Qed.

Lemma Subscribe_refused_witness :
  MessageBus.Subscribe ticks_100hz demo_bus 7 None Immediate 0 true
    = (demo_bus, kInvalidSubscription) /\
  MessageBus.Subscribe ticks_100hz MessageBus.fresh 7 (Some (MsgFn 0)) Immediate 0 true
    = (MessageBus.fresh, kInvalidSubscription).
Proof.
  split.
  - destruct (Subscribe_refused ticks_100hz demo_bus 7 None Immediate 0 true
                ltac:(discriminate)) as [Hiff Hsame].
    assert (Hid : (MessageBus.Subscribe ticks_100hz demo_bus 7 None Immediate 0 true).2
                  = kInvalidSubscription) by (apply Hiff; auto).
    apply injective_projections; [exact (Hsame Hid) | exact Hid].
  - destruct (Subscribe_refused ticks_100hz MessageBus.fresh 7 (Some (MsgFn 0))
                Immediate 0 true ltac:(discriminate)) as [Hiff Hsame].
    assert (Hid : (MessageBus.Subscribe ticks_100hz MessageBus.fresh 7
                     (Some (MsgFn 0)) Immediate 0 true).2
                  = kInvalidSubscription) by (apply Hiff; auto).
    apply injective_projections; [exact (Hsame Hid) | exact Hid].
Defined.

(** ** MessageBus::Publish: order, fields, what it leaves alone *)

Lemma deliver_subs_sublist topic data size now malloc_ok (matches : list SubscriberEntry) :
  forall i,
    (delivery_sub <$> MessageBus.deliver topic data size now malloc_ok i matches)
      `sublist_of` matches.
Proof.
  induction matches as [|sub rest IH]; intros i; simpl; [done |].
  destruct (sub_mode sub).
  - rewrite fmap_cons. by apply sublist_skip.
  - destruct (malloc_ok i).
    + rewrite fmap_cons. by apply sublist_skip.
    + by apply sublist_cons.
Qed.

Lemma deliver_subs_all topic data size now malloc_ok (matches : list SubscriberEntry) :
  (forall i, malloc_ok i = true) ->
  forall i,
    delivery_sub <$> MessageBus.deliver topic data size now malloc_ok i matches
    = matches.
Proof.
  intros Hok. induction matches as [|sub rest IH]; intros i; simpl; [done |].
  destruct (sub_mode sub).
  - by rewrite fmap_cons, IH.
  - rewrite Hok. by rewrite fmap_cons, IH.
Qed.

Lemma fired_sublist_scanned topic now (subs : list SubscriberEntry) :
  ((fun sub => set_last_delivery_tick sub now) <$> List.filter (fires topic now) subs)
    `sublist_of` (scanned topic now <$> subs).
Proof.
  induction subs as [|sub rest IH]; [done |].
  rewrite fmap_cons. simpl. unfold scanned at 1.
  destruct (fires topic now sub).
  - rewrite fmap_cons. by apply sublist_skip.
  - by apply sublist_cons.
Qed.

(** The entries delivered to by one [Publish], in the order of the
    deliveries, are a subsequence of the registry the [Publish] leaves:
    the immediate calls and the [lv_async_call] requests are made in the
    order of registration.  (When LVGL runs a request is not part of this:
    a deferred callback runs after the immediate ones of the same
    publish.)  When no allocation fails on an initialized bus whose mutex
    is taken, the entries delivered to are exactly the entries on the
    topic that are past their throttle. *)
Theorem Publish_delivery_order (b : MessageBus.state) topic data size env :
  let now := wrap32 (env_tick env) in
  let r := MessageBus.Publish b topic data size env in
  (delivery_sub <$> r.2) `sublist_of` MessageBus.subscribers_ r.1 /\
  (MessageBus.initialized_ b = true -> env_take env = true ->
   (forall i, env_malloc env i = true) ->
   delivery_sub <$> r.2 =
     (fun sub => set_last_delivery_tick sub now)
       <$> List.filter (fires topic now) (MessageBus.subscribers_ b)).
Proof.
  intros now r. subst r. split.
  - destruct (MessageBus.initialized_ b) eqn:Hinit;
      [destruct (env_take env) eqn:Htake |].
    + rewrite Publish_locked by done. simpl.
      etrans; [apply deliver_subs_sublist | apply fired_sublist_scanned].
    + rewrite Publish_dropped by auto. apply sublist_nil_l.
    + rewrite Publish_dropped by auto. apply sublist_nil_l.
  - intros Hinit Htake Hok. rewrite Publish_locked by done. simpl.
    by apply deliver_subs_all.
Qed.

Lemma Publish_delivery_order_witness :
  delivery_sub <$> (MessageBus.Publish demo_bus 7 None 0 (at_tick 150)).2
  = [ mkSubscriberEntry 1 7 (Some (MsgFn 0)) Immediate 0 150;
      mkSubscriberEntry 3 7 (Some (MsgFn 2)) LvglAsync 100 150 ].
Proof.
  exact (proj2 (Publish_delivery_order demo_bus 7 None 0 (at_tick 150))
           eq_refl eq_refl (fun _ => eq_refl)).
Defined.

Lemma scanned_registration topic now e :
  registration (scanned topic now e) = registration e.
Proof. unfold scanned. by destruct (fires topic now e). Qed.

(** [Publish] changes nothing of the bus but [last_delivery_tick]s: flags,
    configuration and counter stay, the registry keeps its length, and the
    entry at each index is the one that was there, with its tick as before
    or set to [now]. *)
Theorem Publish_touches_only_ticks (b : MessageBus.state) topic data size env :
  let now := wrap32 (env_tick env) in
  let b' := (MessageBus.Publish b topic data size env).1 in
  MessageBus.initialized_ b' = MessageBus.initialized_ b /\
  MessageBus.config_ b' = MessageBus.config_ b /\
  MessageBus.mutex_ b' = MessageBus.mutex_ b /\
  MessageBus.next_id_ b' = MessageBus.next_id_ b /\
  registration <$> MessageBus.subscribers_ b' = registration <$> MessageBus.subscribers_ b /\
  (forall i e', MessageBus.subscribers_ b' !! i = Some e' ->
     exists e, MessageBus.subscribers_ b !! i = Some e /\
               (e' = e \/ e' = set_last_delivery_tick e now)).
Proof.
  intros now b'. subst b'.
  destruct (MessageBus.initialized_ b) eqn:Hinit;
    [destruct (env_take env) eqn:Htake |].
  - rewrite Publish_locked by done. simpl. repeat split; try done.
    + rewrite <- list_fmap_compose. apply list_fmap_ext.
      intros i e _. apply scanned_registration.
    + intros i e' He'. apply list_lookup_fmap_Some in He' as (e & -> & He).
      exists e. split; [done |]. unfold scanned.
      destruct (fires topic (wrap32 (env_tick env)) e); auto.
  - rewrite Publish_dropped by auto. simpl. repeat split; try done. eauto.
  - rewrite Publish_dropped by auto. simpl. repeat split; try done. eauto.
Qed.

Lemma Publish_touches_only_ticks_witness :
  registration <$> MessageBus.subscribers_
                     (MessageBus.Publish demo_bus 7 None 0 (at_tick 150)).1
    = registration <$> MessageBus.subscribers_ demo_bus /\
  exists e,
    MessageBus.subscribers_ demo_bus !! 2%nat = Some e /\
    (mkSubscriberEntry 3 7 (Some (MsgFn 2)) LvglAsync 100 150 = e \/
     mkSubscriberEntry 3 7 (Some (MsgFn 2)) LvglAsync 100 150
       = set_last_delivery_tick e (wrap32 150)).
Proof.
  destruct (Publish_touches_only_ticks demo_bus 7 None 0 (at_tick 150))
    as (_ & _ & _ & _ & Hsame & Hticks).
  split; [exact Hsame |].
  exact (Hticks 2%nat (mkSubscriberEntry 3 7 (Some (MsgFn 2)) LvglAsync 100 150) eq_refl).
Defined.

Lemma deliver_fields topic data size now malloc_ok (matches : list SubscriberEntry) :
  forall i d,
    d ∈ MessageBus.deliver topic data size now malloc_ok i matches ->
    match d with
    | Invoked sub msg =>
        sub_mode sub = Immediate /\ msg = mkMessage topic data size now
    | Scheduled sub payload =>
        sub_mode sub = LvglAsync /\
        payload = mkAsyncPayload (sub_callback sub) topic now size
                    match data with
                    | Some buf => if 0 <? size then read_bytes buf size else []
                    | None => []
                    end
    end.
Proof.
  induction matches as [|sub rest IH]; intros i d; simpl.
  - intros H. by apply elem_of_nil in H.
  - destruct (sub_mode sub) eqn:Hmode.
    + intros [-> | H]%elem_of_cons; [by split | exact (IH _ _ H)].
    + destruct (malloc_ok i); [| apply IH].
      intros [-> | H]%elem_of_cons; [by split | exact (IH _ _ H)].
Qed.

(** All deliveries of one [Publish] carry the published topic, the size the
    [Publish] went on with and one timestamp, the tick read once.  An
    immediate callback is handed the caller's own pointer; a deferred one
    is given the entry's callback. *)
Theorem Publish_one_timestamp (b : MessageBus.state) topic data size env d :
  d ∈ (MessageBus.Publish b topic data size env).2 ->
  let now := wrap32 (env_tick env) in
  match d with
  | Invoked sub msg =>
      sub_mode sub = Immediate /\
      msg = mkMessage topic data (MessageBus.clip b size) now
  | Scheduled sub payload =>
      sub_mode sub = LvglAsync /\
      ap_callback payload = sub_callback sub /\
      ap_topic payload = topic /\
      ap_timestamp payload = now /\
      ap_data_size payload = MessageBus.clip b size
  end.
Proof.
  destruct (MessageBus.initialized_ b) eqn:Hinit;
    [destruct (env_take env) eqn:Htake |].
  - rewrite Publish_locked by done. simpl. intros Hd.
    apply deliver_fields in Hd. destruct d as [sub msg | sub payload]; [done |].
    destruct Hd as [Hmode ->]. by repeat split.
  - rewrite Publish_dropped by auto. simpl. intros H. by apply elem_of_nil in H.
  - rewrite Publish_dropped by auto. simpl. intros H. by apply elem_of_nil in H.
Qed.

Lemma Publish_one_timestamp_witness :
  let e := mkSubscriberEntry 1 7 (Some (MsgFn 0)) Immediate 0 5 in
  let m := mkMessage 7 (Some demo_bytes) 2 5 in
  Invoked e m ∈ (MessageBus.Publish small_bus 7 (Some demo_bytes) 4 (at_tick 5)).2 /\
  sub_mode e = Immediate /\
  m = mkMessage 7 (Some demo_bytes) (MessageBus.clip small_bus 4) (wrap32 5).
Proof.
  intros e m.
  assert (Hin : Invoked e m
                ∈ (MessageBus.Publish small_bus 7 (Some demo_bytes) 4 (at_tick 5)).2)
    by left.
  split; [exact Hin |].
  exact (Publish_one_timestamp small_bus 7 (Some demo_bytes) 4 (at_tick 5) _ Hin).
Defined.

(** ** The deferred path: Publish, then LvglAsyncCb *)

(** What a deferred callback receives is a copy made at publish time: for a
    payload scheduled by [Publish] from a non-null region holding the
    bytes, [LvglAsyncCb] calls the entry's callback with the published
    topic, the timestamp of the publish and the first [size] bytes of the
    region ([size] as clipped); with a size of zero it passes a null
    pointer.  On a null argument [LvglAsyncCb] calls nothing. *)
Theorem deferred_message (b : MessageBus.state) topic buf size env sub payload f :
  Scheduled sub payload ∈ (MessageBus.Publish b topic (Some buf) size env).2 ->
  sub_callback sub = Some f ->
  let now := wrap32 (env_tick env) in
  let n := MessageBus.clip b size in
  (0 < n <= Z.of_nat (length buf) ->
     MessageBus.LvglAsyncCb (Some payload)
       = Some (f, mkMessage topic (Some (read_bytes buf n)) n now) /\
     Z.of_nat (length (read_bytes buf n)) = n) /\
  (n = 0 ->
     MessageBus.LvglAsyncCb (Some payload) = Some (f, mkMessage topic None 0 now)) /\
  MessageBus.LvglAsyncCb None = None.
Proof.
  intros Hin Hcb now n.
  assert (Hp : payload = mkAsyncPayload (Some f) topic now n
                           (if 0 <? n then read_bytes buf n else [])).
  { destruct (MessageBus.initialized_ b) eqn:Hinit;
      [destruct (env_take env) eqn:Htake |].
    - rewrite Publish_locked in Hin by done. simpl in Hin.
      apply deliver_fields in Hin as [_ ->]. by rewrite Hcb.
    - rewrite Publish_dropped in Hin by auto. by apply elem_of_nil in Hin.
    - rewrite Publish_dropped in Hin by auto. by apply elem_of_nil in Hin. }
  split; [| split; [| reflexivity]].
  - intros Hn. rewrite Hp. unfold MessageBus.LvglAsyncCb. simpl.
    replace (0 <? n) with true by lia. split; [done |].
    apply read_bytes_length. lia.
  - intros Hn. rewrite Hp, Hn. reflexivity.
Qed.

Lemma deferred_message_witness :
  exists payload,
    Scheduled (mkSubscriberEntry 2 8 (Some (MsgFn 1)) LvglAsync 0 1) payload
      ∈ (MessageBus.Publish demo_bus 8 (Some demo_bytes) 4 (at_tick 1)).2 /\
    MessageBus.LvglAsyncCb (Some payload)
      = Some (MsgFn 1, mkMessage 8 (Some demo_bytes) 4 1).
Proof.
  eexists. split; [left |].
  refine (proj1 (proj1 (deferred_message demo_bus 8 demo_bytes 4 (at_tick 1)
                          (mkSubscriberEntry 2 8 (Some (MsgFn 1)) LvglAsync 0 1) _
                          (MsgFn 1) _ eq_refl) _)).
  - left.
  - vm_compute. split; [reflexivity | discriminate].
Defined.

(** ** Throttling across two publishes *)

(** At most one delivery per interval: when a [Publish] at tick [t1] takes
    a throttled entry, a second [Publish] on the topic less than
    [min_interval_ticks] later (the difference taken in [uint32_t]) leaves
    the entry stamped [t1] and, ids being distinct, makes no delivery under
    its id, whatever its mode. *)
Theorem Publish_once_per_interval (b : MessageBus.state) topic
    data1 size1 env1 data2 size2 env2 pre e post :
  MessageBus.initialized_ b = true ->
  env_take env1 = true ->
  MessageBus.subscribers_ b = pre ++ e :: post ->
  sub_topic e = topic ->
  0 < min_interval_ticks e ->
  let t1 := wrap32 (env_tick env1) in
  let t2 := wrap32 (env_tick env2) in
  min_interval_ticks e <= wrap32 (t1 - last_delivery_tick e) ->
  wrap32 (t2 - t1) < min_interval_ticks e ->
  let r1 := MessageBus.Publish b topic data1 size1 env1 in
  let r2 := MessageBus.Publish r1.1 topic data2 size2 env2 in
  MessageBus.subscribers_ r1.1 !! length pre = Some (set_last_delivery_tick e t1) /\
  MessageBus.subscribers_ r2.1 !! length pre = Some (set_last_delivery_tick e t1) /\
  (ids_distinct (MessageBus.subscribers_ b) ->
   forall d, d ∈ r2.2 -> sub_id (delivery_sub d) <> sub_id e).
Proof.
  intros Hinit Htake Hsubs Htopic Hpos t1 t2 Hpast Hinside r1 r2.
  assert (Hf : fires topic (wrap32 (env_tick env1)) e = true).
  { apply fires_of_conditions; [done |]. by intros _. }
  assert (Hsubs1 : MessageBus.subscribers_ r1.1 =
            (scanned topic t1 <$> pre) ++ set_last_delivery_tick e t1
              :: (scanned topic t1 <$> post)).
  { subst r1. rewrite Publish_locked by done. simpl. rewrite Hsubs, fmap_app.
    rewrite fmap_cons. fold t1. unfold scanned at 2. fold t1 in Hf.
    by rewrite Hf. }
  assert (Hf2 : fires topic (wrap32 (env_tick env2)) (set_last_delivery_tick e t1)
                = false)
    by (by apply fires_throttled).
  destruct (Publish_passes_over r1.1 topic data2 size2 env2 _ _ _ Hsubs1 Hf2)
    as [Hkeep _].
  rewrite length_fmap in Hkeep.
  split; [| split; [exact Hkeep |]].
  - rewrite Hsubs1, list_lookup_middle; [done | by rewrite length_fmap].
  - intros Hnd d Hd.
    change (sub_id e) with (sub_id (set_last_delivery_tick e t1)).
    apply (Publish_not_delivered r1.1 topic data2 size2 env2); try done.
    + unfold ids_distinct in *. rewrite Hsubs1. rewrite Hsubs in Hnd.
      rewrite fmap_app in *. rewrite fmap_cons in *. by rewrite !scanned_ids.
    + rewrite Hsubs1, elem_of_app. right. left.
Qed.

Lemma Publish_once_per_interval_witness :
  let r1 := MessageBus.Publish demo_bus 7 None 0 (at_tick 150) in
  let r2 := MessageBus.Publish r1.1 7 None 0 (at_tick 249) in
  MessageBus.subscribers_ r2.1 !! 2%nat
    = Some (mkSubscriberEntry 3 7 (Some (MsgFn 2)) LvglAsync 100 150) /\
  forall d, d ∈ r2.2 -> sub_id (delivery_sub d) <> 3.
Proof.
  intros r1 r2.
  destruct (Publish_once_per_interval demo_bus 7 None 0 (at_tick 150) None 0
              (at_tick 249)
              [mkSubscriberEntry 1 7 (Some (MsgFn 0)) Immediate 0 0;
               mkSubscriberEntry 2 8 (Some (MsgFn 1)) LvglAsync 0 0]
              (mkSubscriberEntry 3 7 (Some (MsgFn 2)) LvglAsync 100 0) []
              eq_refl eq_refl eq_refl eq_refl eq_refl
              ltac:(vm_compute; discriminate) eq_refl)
    as (_ & Hkeep & Hnone).
  split; [exact Hkeep | exact (Hnone demo_bus_ids_distinct)].
Defined.

(** ** MessageBus::Unsubscribe *)

Lemma erase_first_split id (subs : list SubscriberEntry) :
  MessageBus.erase_first id subs = subs /\ (forall e, e ∈ subs -> sub_id e <> id) \/
  exists pre e post,
    subs = pre ++ e :: post /\ sub_id e = id /\
    (forall x, x ∈ pre -> sub_id x <> id) /\
    MessageBus.erase_first id subs = pre ++ post.
Proof.
  induction subs as [|sub rest IH]; simpl.
  - left. split; [done |]. intros e H. by apply elem_of_nil in H.
  - destruct (Z.eqb_spec (sub_id sub) id) as [Heq|Hne].
    + right. exists [], sub, rest. repeat split; [done |].
      intros x H. by apply elem_of_nil in H.
    + destruct IH as [[Hsame Hnone] | (pre & e & post & -> & He & Hpre & Herase)].
      * left. rewrite Hsame. split; [done |].
        intros e [-> | He]%elem_of_cons; auto.
      * right. exists (sub :: pre), e, post. rewrite Herase.
        repeat split; [done |].
        intros x [-> | Hx]%elem_of_cons; auto.
Qed.

(** [Unsubscribe] takes away at most one entry, the first that carries the
    id, and leaves every other entry in place and in order; flags,
    configuration and counter stay.  With no entry of the id, with the
    invalid id, on an uninitialized bus or without the mutex, the bus is
    as it was. *)
Theorem Unsubscribe_first_only (b : MessageBus.state) id take :
  let b' := MessageBus.Unsubscribe b id take in
  (b' = b \/
   exists pre e post,
     MessageBus.subscribers_ b = pre ++ e :: post /\ sub_id e = id /\
     (forall x, x ∈ pre -> sub_id x <> id) /\
     b' = MessageBus.with_subscribers b (pre ++ post)) /\
  ((forall e, e ∈ MessageBus.subscribers_ b -> sub_id e <> id) \/
   id = kInvalidSubscription \/ MessageBus.initialized_ b = false \/ take = false ->
   b' = b) /\
  (MessageBus.initialized_ b = true -> id <> kInvalidSubscription -> take = true ->
   forall e, e ∈ MessageBus.subscribers_ b -> sub_id e = id ->
     length (MessageBus.subscribers_ b') = pred (length (MessageBus.subscribers_ b))).
Proof.
  intros b'. subst b'. unfold MessageBus.Unsubscribe.
  destruct (Z.eqb_spec id kInvalidSubscription) as [Hinv|Hvalid]; simpl.
  { split; [by left |]. split; [done |]. done. }
  destruct (MessageBus.initialized_ b) eqn:Hinit; simpl;
    [| split; [by left |]; split; done].
  destruct take; simpl; [| split; [by left |]; split; done].
  destruct (erase_first_split id (MessageBus.subscribers_ b))
    as [[Hsame Hnone] | (pre & e & post & Hsubs & He & Hpre & Herase)].
  - rewrite Hsame, with_subscribers_same. split; [by left |]. split; [done |].
    intros _ _ _ e He Hid. by destruct (Hnone e He).
  - rewrite Herase. split; [| split].
    + right. by exists pre, e, post.
    + intros [Hnone | [? | [? | ?]]]; try done.
      exfalso. apply (Hnone e); [| done]. rewrite Hsubs, elem_of_app. right. left.
    + intros _ _ _ _ _ _. simpl. rewrite Hsubs, !length_app. simpl. lia.
Qed.

Lemma Unsubscribe_first_only_witness :
  MessageBus.Unsubscribe demo_bus 9 true = demo_bus /\
  length (MessageBus.subscribers_ (MessageBus.Unsubscribe demo_bus 2 true)) = 2%nat.
Proof.
  destruct (Unsubscribe_first_only demo_bus 9 true) as (_ & Hsame & _).
  destruct (Unsubscribe_first_only demo_bus 2 true) as (_ & _ & Hlen).
  split.
  - apply Hsame. left. intros e He Hid.
    apply (f_equal (fun x => bool_decide (x ∈ [1; 2; 3]))) in Hid.
    revert Hid. apply list_elem_of_fmap_2 with (f := sub_id) in He.
    change (sub_id <$> MessageBus.subscribers_ demo_bus) with [1; 2; 3] in He.
    rewrite (bool_decide_eq_true_2 _ He). vm_compute. discriminate.
  - exact (Hlen eq_refl ltac:(discriminate) eq_refl
             (mkSubscriberEntry 2 8 (Some (MsgFn 1)) LvglAsync 0 0)
             ltac:(right; left) eq_refl).
Defined.

(** ** Subscribe composed with Unsubscribe and Publish *)

(** On an initialized bus whose counter is in [1..UINT32_MAX] and is the
    id of no registered entry: a [Subscribe] with a callback that is not
    empty, followed by [Unsubscribe] of the id returned, both taking the
    mutex, gives back the registry as it was, with the configuration and
    the initialized flag.  The counter itself has moved on: it is not the
    id returned, so that id is not handed out by the next [Subscribe], and
    it is still in [1..UINT32_MAX]. *)
Theorem Subscribe_Unsubscribe pdMS_TO_TICKS (b : MessageBus.state) topic f mode ms :
  MessageBus.initialized_ b = true ->
  1 <= MessageBus.next_id_ b <= UINT32_MAX ->
  (forall e, e ∈ MessageBus.subscribers_ b -> sub_id e <> MessageBus.next_id_ b) ->
  let r := MessageBus.Subscribe pdMS_TO_TICKS b topic (Some f) mode ms true in
  let b2 := MessageBus.Unsubscribe r.1 r.2 true in
  MessageBus.subscribers_ b2 = MessageBus.subscribers_ b /\
  MessageBus.config_ b2 = MessageBus.config_ b /\
  MessageBus.initialized_ b2 = true /\
  MessageBus.next_id_ b2 <> r.2 /\
  1 <= MessageBus.next_id_ b2 <= UINT32_MAX.
Proof.
  intros Hinit Hrange Hnone r b2. subst b2 r.
  rewrite Subscribe_registers by done. cbn [fst snd].
  unfold MessageBus.Unsubscribe. cbn [MessageBus.initialized_].
  replace (MessageBus.next_id_ b =? kInvalidSubscription) with false
    by (unfold kInvalidSubscription; lia).
  simpl. rewrite erase_first_last by done.
  repeat split; try done;
    unfold wrap32, kInvalidSubscription, UINT32_MAX in *;
    change (2 ^ 32 - 1) with 4294967295 in *;
    change (2 ^ 32) with 4294967296 in *;
    destruct (Z.eq_dec (MessageBus.next_id_ b) 4294967295) as [Hlast|Hnot];
    try (rewrite Hlast; simpl; lia);
    rewrite (Z.mod_small (MessageBus.next_id_ b + 1)) by lia;
    replace (MessageBus.next_id_ b + 1 =? 0) with false by lia; lia.
Qed.

Lemma Subscribe_Unsubscribe_witness :
  let r := MessageBus.Subscribe ticks_100hz demo_bus 9 (Some (MsgFn 5)) Immediate 0 true in
  r.2 = 4 /\
  MessageBus.subscribers_ (MessageBus.Unsubscribe r.1 r.2 true)
    = MessageBus.subscribers_ demo_bus /\
  MessageBus.next_id_ (MessageBus.Unsubscribe r.1 r.2 true) = 5.
Proof.
  intros r.
  assert (Hnone : forall e, e ∈ MessageBus.subscribers_ demo_bus ->
                            sub_id e <> MessageBus.next_id_ demo_bus).
  { intros e He Hid. apply list_elem_of_fmap_2 with (f := sub_id) in He.
    rewrite Hid in He. change (4 ∈ [1; 2; 3]) in He.
    repeat (apply elem_of_cons in He as [He | He]; [discriminate |]).
    by apply elem_of_nil in He. }
  destruct (Subscribe_Unsubscribe ticks_100hz demo_bus 9 (MsgFn 5) Immediate 0
              eq_refl ltac:(vm_compute; split; discriminate) Hnone)
    as (Hsubs & _).
  split; [reflexivity |]. split; [exact Hsubs | reflexivity].
Defined.

(** On an initialized bus, take a [Subscribe] with a callback that is not
    empty and no interval, which takes the mutex, and then a [Publish] on
    its topic which takes the mutex.  If the mode is Immediate, the
    deliveries of the [Publish] contain the call of the new entry with the
    message of the publish (topic, data, clipped size, tick).  If the mode
    is LvglAsync and every allocation succeeds, they contain its
    [lv_async_call] request, and [LvglAsyncCb] applied to the payload of
    that request calls the callback with a message of that topic, size and
    tick.  In both cases the entry carries the id that [Subscribe]
    returned and [last_delivery_tick = now]. *)
Theorem Subscribe_then_Publish pdMS_TO_TICKS (b : MessageBus.state) topic f mode
    data size env :
  MessageBus.initialized_ b = true ->
  env_take env = true ->
  let r := MessageBus.Subscribe pdMS_TO_TICKS b topic (Some f) mode 0 true in
  let now := wrap32 (env_tick env) in
  let e' := mkSubscriberEntry r.2 topic (Some f) mode 0 now in
  let ds := (MessageBus.Publish r.1 topic data size env).2 in
  (mode = Immediate ->
     Invoked e' (mkMessage topic data (MessageBus.clip b size) now) ∈ ds) /\
  (mode = LvglAsync -> (forall i, env_malloc env i = true) ->
     exists payload,
       Scheduled e' payload ∈ ds /\
       exists msg, MessageBus.LvglAsyncCb (Some payload) = Some (f, msg) /\
                   msg_topic msg = topic /\
                   msg_data_size msg = MessageBus.clip b size /\
                   msg_timestamp msg = now).
Proof.
  intros Hinit Htake r now e' ds. subst ds e' r.
  rewrite Subscribe_registers by done. cbn [fst snd].
  set (b1 := MessageBus.mkState _ _ _ _ _).
  set (e0 := mkSubscriberEntry (MessageBus.next_id_ b) topic (Some f) mode 0 0).
  assert (Hsubs : MessageBus.subscribers_ b1 = MessageBus.subscribers_ b ++ e0 :: [])
    by reflexivity.
  assert (Hf : fires topic (wrap32 (env_tick env)) e0 = true).
  { apply fires_of_conditions; [done |]. simpl. lia. }
  destruct (Publish_takes b1 topic data size env _ e0 [] eq_refl Htake Hsubs Hf)
    as (_ & _ & Himm & Hasync).
  split.
  - intros Hmode. exact (Himm Hmode).
  - intros Hmode Hok. destruct (Hasync Hmode (Hok _)) as [bytes Hin].
    eexists. split; [exact Hin |]. eexists. split; [reflexivity |]. done.
Qed.

Lemma Subscribe_then_Publish_witness :
  Invoked (mkSubscriberEntry 4 9 (Some (MsgFn 5)) Immediate 0 50)
    (mkMessage 9 (Some demo_bytes) 4 50)
  ∈ (MessageBus.Publish
       (MessageBus.Subscribe ticks_100hz demo_bus 9 (Some (MsgFn 5)) Immediate 0 true).1
       9 (Some demo_bytes) 4 (at_tick 50)).2.
Proof.
  exact (proj1 (Subscribe_then_Publish ticks_100hz demo_bus 9 (MsgFn 5) Immediate
                  (Some demo_bytes) 4 (at_tick 50) eq_refl eq_refl) eq_refl).
Defined.

(** ** What every reachable bus satisfies *)

Lemma wrap32_range z : 0 <= wrap32 z <= UINT32_MAX.
Proof.
  unfold wrap32, UINT32_MAX. change (2 ^ 32 - 1) with 4294967295.
  change (2 ^ 32) with 4294967296.
  pose proof (Z.mod_pos_bound z 4294967296). lia.
Qed.

Lemma call_keeps_bus_ok pdMS_TO_TICKS (b : MessageBus.state) (c : BusCall) :
  bus_ok b -> bus_ok (call pdMS_TO_TICKS b c).1.
Proof.
  intros Hb. pose proof Hb as (Hnext & Hempty & Hall).
  destruct c as [config created | topic cb mode ms take | id take
                | topic data size env]; simpl.
  - unfold MessageBus.Initialize.
    destruct (MessageBus.initialized_ b) eqn:Hinit; simpl; [done |].
    destruct created; unfold bus_ok; simpl; (split; [done |]); (split; [| done]).
    + discriminate.
    + intros _. by apply Hempty.
  - unfold MessageBus.Subscribe.
    destruct (MessageBus.initialized_ b) eqn:Hinit; simpl; [| done].
    destruct cb as [f|]; simpl; [| done].
    destruct take; simpl; [| done].
    unfold bus_ok. simpl. split; [| split].
    + simpl. pose proof (wrap32_range (MessageBus.next_id_ b + 1)).
      unfold kInvalidSubscription.
      destruct (Z.eqb_spec (wrap32 (MessageBus.next_id_ b + 1)) 0);
        unfold UINT32_MAX in *; lia.
    + simpl. discriminate.
    + simpl. apply Forall_app. split; [done |]. apply Forall_singleton.
      unfold entry_ok. simpl. split; [lia |]. split; [by eexists |].
      split; [| unfold UINT32_MAX; lia].
      destruct (0 <? ms); [apply wrap32_range | unfold UINT32_MAX; lia].
  - unfold MessageBus.Unsubscribe.
    destruct ((id =? kInvalidSubscription) || negb (MessageBus.initialized_ b))
      eqn:Hguard; [done |].
    destruct (negb take); [done |]. unfold bus_ok. simpl. split; [done |]. split.
    + intros Hinit. apply orb_false_iff in Hguard as [_ Hguard].
      rewrite Hinit in Hguard. done.
    + apply Forall_forall. intros e He. apply erase_first_subset in He.
      revert e He. by apply Forall_forall.
  - destruct (MessageBus.initialized_ b) eqn:Hinit;
      [destruct (env_take env) eqn:Htake |];
      [| rewrite Publish_dropped by auto; done
       | rewrite Publish_dropped by auto; done].
    rewrite Publish_locked by done. unfold bus_ok. simpl.
    split; [done |]. split; [intros; congruence |].
    apply Forall_fmap, Forall_forall. intros e He. simpl.
    assert (Hok : entry_ok e) by (revert e He; by apply Forall_forall).
    unfold scanned. destruct (fires topic (wrap32 (env_tick env)) e); [| done].
    destruct Hok as (? & ? & ? & ?). unfold entry_ok. simpl.
    split; [done |]. split; [done |]. split; [done |]. apply wrap32_range.
Qed.

(** Along every sequence of calls on the bus as constructed: the counter is
    never 0; every registered entry has a valid id (so [Unsubscribe] never
    takes it for the invalid one), a callback that is not empty (so
    [Publish] never calls an empty [std::function]) and ticks within
    [uint32_t]; and nothing is registered before [Initialize] succeeds. *)
Theorem reachable_bus_ok pdMS_TO_TICKS (calls : list BusCall) :
  bus_ok (run pdMS_TO_TICKS MessageBus.fresh calls).1.
Proof.
  assert (Hgen : forall b, bus_ok b -> bus_ok (run pdMS_TO_TICKS b calls).1).
  { induction calls as [|c rest IH]; intros b Hb; simpl; [done |].
    pose proof (call_keeps_bus_ok pdMS_TO_TICKS b c Hb) as Hcall.
    destruct (call pdMS_TO_TICKS b c) as [b1 ret]. specialize (IH b1 Hcall).
    by destruct (run pdMS_TO_TICKS b1 rest) as [b2 rets]. }
  apply Hgen. unfold bus_ok, MessageBus.fresh. simpl.
  split; [unfold UINT32_MAX; lia |]. split; [done | constructor].
Qed.

Lemma reachable_bus_ok_witness :
  Forall entry_ok (MessageBus.subscribers_ demo_bus) /\
  1 <= MessageBus.next_id_ demo_bus <= UINT32_MAX.
Proof.
  destruct (reachable_bus_ok ticks_100hz demo_calls) as (Hnext & _ & Hall).
  split; [exact Hall | exact Hnext].
Defined.

(** ** DataStore: writing, reading back, removing *)

Lemma SetRaw_keeps_settings (s : DataStore.state) bus key data size take env :
  let s' := (DataStore.SetRaw s bus key data size take env).1.1 in
  DataStore.initialized_ s' = DataStore.initialized_ s /\
  DataStore.config_ s' = DataStore.config_ s /\
  DataStore.topic_base_ s' = DataStore.topic_base_ s /\
  DataStore.mutex_ s' = DataStore.mutex_ s.
Proof.
  unfold DataStore.SetRaw.
  destruct (negb (DataStore.initialized_ s) || negb (bool_decide (is_Some data))
            || (size =? 0)); [done |].
  destruct (max_entry_size (DataStore.config_ s) <? size); [done |].
  destruct (negb take); [done |].
  destruct (DataStore.store_value _ _ _ _) as [entries' changed].
  destruct changed; [| done].
  by destruct (MessageBus.Publish _ _ _ _ _).
Qed.

(** The map [SetRaw] leaves, whatever path it takes. *)
Lemma SetRaw_entries (s : DataStore.state) bus key data size take env :
  DataStore.entries_ (DataStore.SetRaw s bus key data size take env).1.1
    = DataStore.entries_ s \/
  exists buf, data = Some buf /\
    DataStore.initialized_ s = true /\ take = true /\
    0 <> size /\ size <= max_entry_size (DataStore.config_ s) /\
    DataStore.entries_ (DataStore.SetRaw s bus key data size take env).1.1
      = <[key := mkEntry (read_bytes buf size)]> (DataStore.entries_ s).
Proof.
  unfold DataStore.SetRaw.
  destruct (DataStore.initialized_ s) eqn:Hinit; simpl; [| by left].
  destruct data as [buf|]; simpl; [| by left].
  destruct (Z.eqb_spec size 0) as [Hz|Hnz]; [by left |].
  destruct (Z.ltb_spec (max_entry_size (DataStore.config_ s)) size) as [Hbig|Hfit];
    [by left |].
  destruct take; simpl; [| by left].
  unfold DataStore.store_value.
  destruct (DataStore.entries_ s !! key) as [existing|].
  - destruct (negb (Z.of_nat (length (entry_data existing)) =? size)
              || negb (memcmp (entry_data existing) buf size =? 0)); simpl.
    + destruct (MessageBus.Publish _ _ _ _ _). right. exists buf.
      repeat split; try done; lia.
    + by left.
  - simpl. destruct (MessageBus.Publish _ _ _ _ _). right. exists buf.
    repeat split; try done; lia.
Qed.

Lemma store_value_lookup (entries : gmap Z Entry) key buf size :
  (DataStore.store_value entries key buf size).1 !! key
    = Some (mkEntry (read_bytes buf size)).
Proof.
  unfold DataStore.store_value.
  destruct (entries !! key) as [existing|] eqn:Hkey; simpl;
    [| apply lookup_insert_eq].
  destruct (Z.eqb_spec (Z.of_nat (length (entry_data existing))) size) as [Hlen|Hlen];
    simpl; [| apply lookup_insert_eq].
  destruct (Z.eqb_spec (memcmp (entry_data existing) buf size) 0) as [Hcmp|Hcmp];
    simpl; [| apply lookup_insert_eq].
  apply memcmp_same_value in Hcmp; [| done].
  rewrite Hkey, <- Hcmp. by destruct existing.
Qed.

(** On an initialized store, after a [SetRaw] of [0 < size <=
    max_entry_size] bytes from a region that holds them, which took the
    mutex: a [GetRaw] with a non-null [out] that takes the mutex answers
    [true] for the size written, and the first [size] bytes behind [out]
    are then the bytes written (the rest of [out] as before); for any
    other size it answers [false] and leaves [out]; and a [Contains] that
    takes the mutex answers [true].  This holds whether the write changed
    the entry or found it equal. *)
Theorem SetRaw_GetRaw (s : DataStore.state) bus key buf size env out :
  DataStore.initialized_ s = true ->
  0 < size <= max_entry_size (DataStore.config_ s) ->
  size <= Z.of_nat (length buf) ->
  let s' := (DataStore.SetRaw s bus key (Some buf) size true env).1.1 in
  DataStore.GetRaw s' key (Some out) size true
    = (true, Some (read_bytes buf size ++ skipn (Z.to_nat size) out)) /\
  (forall size', size' <> size ->
     DataStore.GetRaw s' key (Some out) size' true = (false, Some out)) /\
  DataStore.Contains s' key true = true.
Proof.
  intros Hinit Hsize Hbuf s'.
  assert (Hinit' : DataStore.initialized_ s' = true).
  { subst s'. by rewrite (proj1 (SetRaw_keeps_settings s bus key (Some buf) size true env)). }
  assert (Hkey : DataStore.entries_ s' !! key = Some (mkEntry (read_bytes buf size))).
  { subst s'. rewrite SetRaw_accepted by done.
    pose proof (store_value_lookup (DataStore.entries_ s) key buf size) as Hl.
    destruct (DataStore.store_value _ _ _ _) as [entries' changed].
    by destruct changed. }
  assert (Hlen : Z.of_nat (length (read_bytes buf size)) = size)
    by (apply read_bytes_length; lia).
  split; [| split].
  - rewrite GetRaw_locked, Hkey by (done || lia). simpl.
    replace (Z.of_nat (length (read_bytes buf size)) =? size) with true by lia.
    by rewrite memcpy_whole.
  - intros size' Hne. unfold DataStore.GetRaw. rewrite Hinit', Hkey. simpl.
    destruct (size' =? 0); [done |].
    by replace (Z.of_nat (length (read_bytes buf size)) =? size') with false by lia.
  - unfold DataStore.Contains. by rewrite Hinit', Hkey.
Qed.

Lemma SetRaw_GetRaw_witness :
  DataStore.GetRaw
    (DataStore.SetRaw demo_store demo_bus 5 (Some other_bytes) 4 true (at_tick 20)).1.1
    5 (Some demo_bytes) 4 true
  = (true, Some other_bytes).
Proof.
  exact (proj1 (SetRaw_GetRaw demo_store demo_bus 5 other_bytes 4 (at_tick 20)
                  demo_bytes eq_refl
                  ltac:(vm_compute; split; [reflexivity | discriminate])
                  ltac:(vm_compute; discriminate))).
Defined.

(** [SetRaw] on one key touches no other key: the entry of every other key,
    and so what [GetRaw] and [Contains] answer for it, are as before; the
    flags, the configuration and the topic base stay too. *)
Theorem SetRaw_other_keys (s : DataStore.state) bus key data size take env key' :
  key' <> key ->
  let s' := (DataStore.SetRaw s bus key data size take env).1.1 in
  DataStore.entries_ s' !! key' = DataStore.entries_ s !! key' /\
  (forall out size' take',
     DataStore.GetRaw s' key' out size' take' = DataStore.GetRaw s key' out size' take') /\
  (forall take', DataStore.Contains s' key' take' = DataStore.Contains s key' take') /\
  DataStore.config_ s' = DataStore.config_ s /\
  DataStore.topic_base_ s' = DataStore.topic_base_ s.
Proof.
  intros Hne s'.
  destruct (SetRaw_keeps_settings s bus key data size take env)
    as (Hinit & Hconfig & Hbase & _).
  fold s' in Hinit, Hconfig, Hbase.
  assert (Hkey : DataStore.entries_ s' !! key' = DataStore.entries_ s !! key').
  { subst s'. destruct (SetRaw_entries s bus key data size take env)
      as [-> | (buf & _ & _ & _ & _ & _ & ->)]; [done |].
    by rewrite lookup_insert_ne. }
  split; [exact Hkey |]. split; [| split; [| by split]].
  - intros out size' take'. unfold DataStore.GetRaw. by rewrite Hinit, Hkey.
  - intros take'. unfold DataStore.Contains. by rewrite Hinit, Hkey.
Qed.

Lemma SetRaw_other_keys_witness :
  DataStore.GetRaw
    (DataStore.SetRaw demo_store demo_bus 6 (Some other_bytes) 4 true (at_tick 20)).1.1
    5 (Some other_bytes) 4 true
  = (true, Some demo_bytes).
Proof.
  rewrite (proj1 (proj2 (SetRaw_other_keys demo_store demo_bus 6 (Some other_bytes) 4
                           true (at_tick 20) 5 ltac:(discriminate)))).
  reflexivity.
Defined.

(** After a [Remove] that took the mutex on an initialized store the key is
    gone: [Contains] answers [false] and [GetRaw] answers [false] for every
    size, leaving [out]; every other key is as before.  Removing a key that
    is absent, or on an uninitialized store or without the mutex, leaves
    the store as it was. *)
Theorem Remove_forgets (s : DataStore.state) key take :
  let s' := DataStore.Remove s key take in
  (DataStore.initialized_ s = true -> take = true ->
     DataStore.entries_ s' !! key = None /\
     (forall take', DataStore.Contains s' key take' = false) /\
     (forall out size take', DataStore.GetRaw s' key out size take' = (false, out))) /\
  (forall key', key' <> key ->
     DataStore.entries_ s' !! key' = DataStore.entries_ s !! key') /\
  (DataStore.entries_ s !! key = None \/ DataStore.initialized_ s = false \/
   take = false -> s' = s) /\
  DataStore.initialized_ s' = DataStore.initialized_ s /\
  DataStore.config_ s' = DataStore.config_ s /\
  DataStore.topic_base_ s' = DataStore.topic_base_ s.
Proof.
  intros s'. subst s'. unfold DataStore.Remove.
  destruct (DataStore.initialized_ s) eqn:Hinit; simpl;
    [| repeat split; try done; intros; congruence].
  destruct take; simpl; [| repeat split; try done; intros; congruence].
  split; [| split; [| split; [| done]]].
  - intros _ _. split; [apply lookup_delete_eq |]. split.
    + intros take'. unfold DataStore.Contains. simpl. rewrite Hinit. simpl.
      rewrite lookup_delete_eq. by destruct take'.
    + intros out size take'. unfold DataStore.GetRaw. simpl. rewrite Hinit. simpl.
      rewrite lookup_delete_eq.
      destruct (negb (bool_decide (is_Some out)) || (size =? 0)); [done |].
      by destruct take'.
  - intros key' Hne. by apply lookup_delete_ne.
  - intros [Habsent | [? | ?]]; try done.
    rewrite delete_id by done. apply with_entries_same.
Qed.

Lemma Remove_forgets_witness :
  DataStore.GetRaw (DataStore.Remove demo_store 5 true) 5 (Some other_bytes) 4 true
    = (false, Some other_bytes) /\
  DataStore.Remove demo_store 6 true = demo_store.
Proof.
  destruct (Remove_forgets demo_store 5 true) as (Hgone & _).
  destruct (Remove_forgets demo_store 6 true) as (_ & _ & Hsame & _).
  split.
  - exact (proj2 (proj2 (Hgone eq_refl eq_refl)) (Some other_bytes) 4 true).
  - apply Hsame. left. reflexivity.
Defined.

(** A removed key counts as never written: on an initialized store, after
    a [Remove] that took the mutex, a [SetRaw] on the key with a non-null
    region, [0 < size <= max_entry_size] and the mutex taken inserts the
    value and makes exactly one [Publish], on topic [topic_base_ + key],
    even with the very bytes that were stored before the removal. *)
Theorem Remove_then_SetRaw (s : DataStore.state) bus key buf size env :
  DataStore.initialized_ s = true ->
  0 < size <= max_entry_size (DataStore.config_ s) ->
  let topic := wrap32 (DataStore.topic_base_ s + key) in
  DataStore.SetRaw (DataStore.Remove s key true) bus key (Some buf) size true env =
    (DataStore.with_entries s
       (<[key := mkEntry (read_bytes buf size)]> (DataStore.entries_ s)),
     (MessageBus.Publish bus topic (Some buf) size env).1,
     [PublishCall topic (Some buf) size
        (MessageBus.Publish bus topic (Some buf) size env).2]).
Proof.
  intros Hinit Hsize topic.
  assert (Hremoved : DataStore.Remove s key true
                     = DataStore.with_entries s (delete key (DataStore.entries_ s))).
  { unfold DataStore.Remove. by rewrite Hinit. }
  rewrite Hremoved, SetRaw_accepted by done.
  unfold DataStore.store_value. simpl. rewrite lookup_delete_eq. simpl.
  by rewrite insert_delete_eq.
Qed.

Lemma Remove_then_SetRaw_witness :
  exists deliveries,
    (DataStore.SetRaw (DataStore.Remove demo_store 5 true) demo_bus 5
       (Some demo_bytes) 4 true (at_tick 20)).2
    = [PublishCall 0x8005 (Some demo_bytes) 4 deliveries] /\
  (DataStore.SetRaw demo_store demo_bus 5 (Some demo_bytes) 4 true (at_tick 20)).2 = [].
Proof.
  eexists. split; [| reflexivity].
  rewrite (Remove_then_SetRaw demo_store demo_bus 5 demo_bytes 4 (at_tick 20) eq_refl
             ltac:(vm_compute; split; [reflexivity | discriminate])).
  reflexivity.
Defined.

(** [Contains] and [GetRaw] agree: whenever [GetRaw] answers [true],
    [Contains] answers [true] under the same answer of the mutex; and on a
    store a client can bring about, when a [Contains] that takes the mutex
    answers [true] for a key, the key has a value of at least one byte,
    and a [GetRaw] with a non-null [out] that takes the mutex and asks for
    the length of that value answers [true]. *)
Theorem Contains_GetRaw :
  (forall (s : DataStore.state) key out size take,
     (DataStore.GetRaw s key out size take).1 = true ->
     DataStore.Contains s key take = true) /\
  (forall (s : DataStore.state) key buf,
     store_reachable s ->
     DataStore.Contains s key true = true ->
     exists e, DataStore.entries_ s !! key = Some e /\
       1 <= Z.of_nat (length (entry_data e)) /\
       (DataStore.GetRaw s key (Some buf) (Z.of_nat (length (entry_data e))) true).1
         = true).
Proof.
  split.
  - intros s key out size take. unfold DataStore.GetRaw, DataStore.Contains.
    destruct (DataStore.initialized_ s); simpl; [| discriminate].
    destruct (negb (bool_decide (is_Some out)) || (size =? 0)); [discriminate |].
    destruct take; simpl; [| discriminate].
    destruct (DataStore.entries_ s !! key) as [e|]; [done | discriminate].
  - intros s key buf Hreach. unfold DataStore.Contains.
    destruct (store_reachable_inv s Hreach) as [_ Hvalues].
    destruct (DataStore.initialized_ s) eqn:Hinit; simpl; [| discriminate].
    destruct (DataStore.entries_ s !! key) as [e|] eqn:Hkey; [| discriminate].
    intros _. exists e. split; [done |].
    assert (Hpos : 1 <= Z.of_nat (length (entry_data e))).
    { specialize (Hvalues key e Hkey). destruct (entry_data e); [done | simpl; lia]. }
    split; [exact Hpos |].
    rewrite GetRaw_locked, Hkey by (done || lia). by rewrite Z.eqb_refl.
Qed.

Lemma Contains_GetRaw_witness :
  DataStore.Contains demo_store 5 true = true /\
  exists e, DataStore.entries_ demo_store !! 5 = Some e /\
    (DataStore.GetRaw demo_store 5 (Some other_bytes)
       (Z.of_nat (length (entry_data e))) true).1 = true.
Proof.
  destruct Contains_GetRaw as [Hget Hcontains].
  assert (Hc : DataStore.Contains demo_store 5 true = true).
  { apply (Hget demo_store 5 (Some other_bytes) 4 true). reflexivity. }
  split; [exact Hc |].
  destruct (Hcontains demo_store 5 other_bytes demo_store_reachable Hc)
    as (e & He & _ & Hread).
  by exists e.
Defined.

(** ** Invariants of the store *)

(** On a store a client can bring about, every stored value has between 1
    and [max_entry_size] bytes of the configuration in force. *)
Theorem stored_values_bounded (s : DataStore.state) key e :
  store_reachable s ->
  DataStore.entries_ s !! key = Some e ->
  1 <= Z.of_nat (length (entry_data e)) <= max_entry_size (DataStore.config_ s).
Proof.
  intros Hreach. revert key e.
  induction Hreach as [| s config topic_base mutex_created Hs IH
                       | s bus key0 data size take env Hs IH Hsize Hregion
                       | s key0 take Hs IH]; intros key e.
  - simpl. by rewrite lookup_empty.
  - destruct (store_reachable_inv s Hs) as [Hempty _].
    unfold DataStore.Initialize.
    destruct (DataStore.initialized_ s) eqn:Hinit; simpl; [apply IH |].
    destruct mutex_created; simpl; rewrite Hempty by done; by rewrite lookup_empty.
  - destruct (SetRaw_keeps_settings s bus key0 data size take env) as (_ & -> & _).
    destruct (SetRaw_entries s bus key0 data size take env)
      as [-> | (buf & -> & _ & _ & Hnz & Hfit & ->)]; [apply IH |].
    destruct (decide (key0 = key)) as [->|Hne].
    + rewrite lookup_insert_eq. intros [= <-]. simpl.
      rewrite read_bytes_length by (specialize (Hregion buf eq_refl); lia). lia.
    + rewrite lookup_insert_ne by done. apply IH.
  - unfold DataStore.Remove.
    destruct (DataStore.initialized_ s); simpl; [| apply IH].
    destruct take; simpl; [| apply IH].
    intros [_ Hk]%lookup_delete_Some. by apply (IH key).
Qed.

Lemma stored_values_bounded_witness :
  1 <= Z.of_nat (length demo_bytes) <= 256.
Proof.
  exact (stored_values_bounded demo_store 5 (mkEntry demo_bytes)
           demo_store_reachable eq_refl).
Defined.

(** Once the store is initialized, no call changes its configuration or
    its topic base, and it stays initialized: the topic of a key is fixed
    for good. *)
Theorem store_settings_fixed (s s' : DataStore.state) :
  DataStore.initialized_ s = true ->
  store_after s s' ->
  DataStore.initialized_ s' = true /\
  DataStore.config_ s' = DataStore.config_ s /\
  DataStore.topic_base_ s' = DataStore.topic_base_ s.
Proof.
  intros Hinit Hafter.
  induction Hafter as [| s' config topic_base mutex_created _ (IHi & IHc & IHb)
                       | s' bus key data size take env _ (IHi & IHc & IHb)
                       | s' key take _ (IHi & IHc & IHb)].
  - done.
  - unfold DataStore.Initialize. by rewrite IHi.
  - destruct (SetRaw_keeps_settings s' bus key data size take env)
      as (-> & -> & -> & _).
    done.
  - unfold DataStore.Remove. rewrite IHi. simpl. by destruct take.
Qed.

Lemma store_settings_fixed_witness :
  DataStore.topic_base_
    (DataStore.Initialize (DataStore.Remove demo_store 5 true)
       (mkDataStoreConfig 2) 0 true).1
  = kDefaultTopicBase.
Proof.
  exact (proj2 (proj2 (store_settings_fixed demo_store _ eq_refl
                         (after_Initialize _ _ (mkDataStoreConfig 2) 0 true
                            (after_Remove _ _ 5 true (after_none _)))))).
Defined.

(** ** Keys and topics *)

Lemma SetRaw_notifications (s : DataStore.state) bus key data size take env :
  (DataStore.SetRaw s bus key data size take env).2 = [] \/
  exists deliveries,
    (DataStore.SetRaw s bus key data size take env).2
      = [PublishCall (wrap32 (DataStore.topic_base_ s + key)) data size deliveries].
Proof.
  unfold DataStore.SetRaw.
  destruct (negb (DataStore.initialized_ s) || negb (bool_decide (is_Some data))
            || (size =? 0)); [by left |].
  destruct (max_entry_size (DataStore.config_ s) <? size); [by left |].
  destruct (negb take); [by left |].
  destruct (DataStore.store_value _ _ _ _) as [entries' changed].
  destruct changed; [| by left].
  destruct (MessageBus.Publish _ _ _ _ _) as [bus' deliveries].
  right. by exists deliveries.
Qed.

Lemma wrap32_add_inj base k1 k2 :
  0 <= k1 <= UINT32_MAX -> 0 <= k2 <= UINT32_MAX ->
  wrap32 (base + k1) = wrap32 (base + k2) -> k1 = k2.
Proof.
  unfold wrap32, UINT32_MAX. change (2 ^ 32 - 1) with 4294967295.
  change (2 ^ 32) with 4294967296. intros H1 H2 Heq.
  pose proof (Z.div_mod (base + k1) 4294967296 ltac:(lia)) as E1.
  pose proof (Z.div_mod (base + k2) 4294967296 ltac:(lia)) as E2.
  rewrite Heq in E1. lia.
Qed.

(** Different keys have different topics, although [topic_base_ + key] is
    taken in [uint32_t]: a [SetRaw] on one key publishes on that key's
    topic only, never on the topic of another key. *)
Theorem SetRaw_topic_of_key (s : DataStore.state) bus key other data size take env
    topic data' size' deliveries :
  0 <= key <= UINT32_MAX ->
  0 <= other <= UINT32_MAX ->
  other <> key ->
  PublishCall topic data' size' deliveries
    ∈ (DataStore.SetRaw s bus key data size take env).2 ->
  topic = wrap32 (DataStore.topic_base_ s + key) /\
  topic <> wrap32 (DataStore.topic_base_ s + other).
Proof.
  intros Hkey Hother Hne Hin.
  assert (Htopic : topic = wrap32 (DataStore.topic_base_ s + key)).
  { destruct (SetRaw_notifications s bus key data size take env) as [Hn | [ds Hn]];
      rewrite Hn in Hin; [by apply elem_of_nil in Hin |].
    apply list_elem_of_singleton in Hin. by injection Hin as -> _ _ _. }
  split; [exact Htopic |]. rewrite Htopic. intros Heq.
  apply Hne. symmetry. by apply (wrap32_add_inj (DataStore.topic_base_ s)).
Qed.

Lemma SetRaw_topic_of_key_witness :
  exists deliveries,
    PublishCall 0x8006 (Some demo_bytes) 4 deliveries
      ∈ (DataStore.SetRaw demo_store demo_bus 6 (Some demo_bytes) 4 true (at_tick 20)).2 /\
    0x8006 <> wrap32 (DataStore.topic_base_ demo_store + 5).
Proof.
  eexists. split; [left |].
  refine (proj2 (SetRaw_topic_of_key demo_store demo_bus 6 5 (Some demo_bytes) 4 true
                   (at_tick 20) 0x8006 (Some demo_bytes) 4 _
                   ltac:(vm_compute; split; discriminate)
                   ltac:(vm_compute; split; discriminate)
                   ltac:(discriminate) _)).
  left.
Defined.

(** ** DataStore::Watch *)

Lemma store_value_changed (entries : gmap Z Entry) key buf size :
  entries !! key = None \/
    (exists v, entries !! key = Some (mkEntry v) /\ v <> read_bytes buf size) ->
  DataStore.store_value entries key buf size
    = (<[key := mkEntry (read_bytes buf size)]> entries, true).
Proof.
  unfold DataStore.store_value.
  intros [-> | (v & -> & Hne)]; [reflexivity |]. simpl.
  destruct (Z.eqb_spec (Z.of_nat (length v)) size) as [Hlen|Hlen]; [| reflexivity].
  simpl. destruct (Z.eqb_spec (memcmp v buf size) 0) as [Hcmp|Hcmp]; [| reflexivity].
  apply memcmp_same_value in Hcmp; [| exact Hlen]. contradiction.
Qed.

(** [Watch] on an uninitialized store, or with an empty callback, returns
    the invalid id and does not touch the bus.  On an initialized store
    and an initialized bus, a [Watch] with a callback that is not empty,
    which takes the mutex of the bus, returns the id the counter of the
    bus stands at.  A [SetRaw] after it (non-null region, [0 < size <=
    max_entry_size], mutex of the store taken) that writes the key for the
    first time or with other bytes makes one [Publish] on topic
    [topic_base_ + key]; when that [Publish] takes the mutex of the bus
    and every allocation succeeds, its deliveries contain the
    [lv_async_call] request of the watch, a deferred entry without
    interval under the id returned, and [LvglAsyncCb] applied to the
    payload of that request calls the wrapper, which holds the key and the
    watcher's function, with a message of that topic and tick. *)
Theorem Watch_then_SetRaw :
  (forall pdMS_TO_TICKS (s : DataStore.state) bus key callback take,
     DataStore.initialized_ s = false \/ callback = None ->
     DataStore.Watch pdMS_TO_TICKS s bus key callback take
       = (bus, kInvalidSubscription)) /\
  (forall pdMS_TO_TICKS (s : DataStore.state) bus key name buf size env,
     DataStore.initialized_ s = true ->
     MessageBus.initialized_ bus = true ->
     0 < size <= max_entry_size (DataStore.config_ s) ->
     env_take env = true ->
     (forall i, env_malloc env i = true) ->
     DataStore.entries_ s !! key = None \/
       (exists v, DataStore.entries_ s !! key = Some (mkEntry v) /\
                  v <> read_bytes buf size) ->
     let w := DataStore.Watch pdMS_TO_TICKS s bus key (Some name) true in
     let r := DataStore.SetRaw s w.1 key (Some buf) size true env in
     let topic := wrap32 (DataStore.topic_base_ s + key) in
     let now := wrap32 (env_tick env) in
     w.2 = MessageBus.next_id_ bus /\
     exists deliveries payload msg,
       r.2 = [PublishCall topic (Some buf) size deliveries] /\
       Scheduled (mkSubscriberEntry w.2 topic (Some (KeyFn key name)) LvglAsync 0 now)
         payload ∈ deliveries /\
       MessageBus.LvglAsyncCb (Some payload) = Some (KeyFn key name, msg) /\
       msg_topic msg = topic /\ msg_timestamp msg = now).
Proof.
  split.
  - intros pdMS_TO_TICKS s bus key callback take Hguard. unfold DataStore.Watch.
    destruct callback as [name|]; [| done].
    destruct Hguard as [-> | ?]; done.
  - intros pdMS_TO_TICKS s bus key name buf size env Hs Hbus Hsize Htake Hok Hcase
      w r topic now.
    assert (Hw : w = MessageBus.Subscribe pdMS_TO_TICKS bus topic
                       (Some (KeyFn key name)) LvglAsync 0 true).
    { subst w. unfold DataStore.Watch. by rewrite Hs. }
    rewrite Subscribe_registers in Hw by done. simpl in Hw.
    split; [by rewrite Hw |].
    subst r. rewrite SetRaw_accepted, store_value_changed by done.
    cbv zeta. fold topic. cbn [snd].
    set (e0 := mkSubscriberEntry (MessageBus.next_id_ bus) topic
                 (Some (KeyFn key name)) LvglAsync 0 0).
    assert (Hsubs : MessageBus.subscribers_ w.1
                    = MessageBus.subscribers_ bus ++ e0 :: [])
      by (by rewrite Hw).
    assert (Hinit1 : MessageBus.initialized_ w.1 = true) by (by rewrite Hw).
    assert (Hf : fires topic (wrap32 (env_tick env)) e0 = true).
    { apply fires_of_conditions; [done |]. simpl. lia. }
    destruct (Publish_takes w.1 topic (Some buf) size env _ e0 [] Hinit1 Htake Hsubs Hf)
      as (_ & _ & _ & Hasync).
    destruct (Hasync eq_refl (Hok _)) as [bytes Hin].
    eexists _, _, _. split; [reflexivity |]. split.
    + replace w.2 with (MessageBus.next_id_ bus) by (by rewrite Hw). exact Hin.
    + split; [reflexivity |]. done.
Qed.

Lemma Watch_then_SetRaw_witness :
  DataStore.Watch ticks_100hz DataStore.fresh demo_bus 5 (Some 0%nat) true
    = (demo_bus, kInvalidSubscription) /\
  exists deliveries payload msg,
    (DataStore.SetRaw demo_store
       (DataStore.Watch ticks_100hz demo_store demo_bus 5 (Some 0%nat) true).1
       5 (Some other_bytes) 4 true (at_tick 20)).2
      = [PublishCall 0x8005 (Some other_bytes) 4 deliveries] /\
    Scheduled (mkSubscriberEntry 4 0x8005 (Some (KeyFn 5 0)) LvglAsync 0 20) payload
      ∈ deliveries /\
    MessageBus.LvglAsyncCb (Some payload) = Some (KeyFn 5 0, msg).
Proof.
  destruct Watch_then_SetRaw as [Hguard Hnotify].
  split.
  - apply Hguard. by left.
  - destruct (Hnotify ticks_100hz demo_store demo_bus 5 0%nat other_bytes 4 (at_tick 20)
                eq_refl eq_refl
                ltac:(vm_compute; split; [reflexivity | discriminate])
                eq_refl (fun _ => eq_refl)
                ltac:(right; exists demo_bytes; split; [reflexivity | discriminate]))
      as (_ & deliveries & payload & msg & Hcall & Hin & Hcb & _).
    by exists deliveries, payload, msg.
Defined.

(** ** Subscription: the RAII guard *)

(** The guard's test for the invalid id is the one [Unsubscribe] makes:
    destroying a guard is unsubscribing its id. *)
Lemma destroy_unsubscribes (g : Subscription.t) bus take :
  Subscription.destroy g bus take
    = MessageBus.Unsubscribe bus (Subscription.id_ g) take.
Proof.
  unfold Subscription.destroy, Subscription.Reset, MessageBus.Unsubscribe.
  by destruct (Subscription.id_ g =? kInvalidSubscription).
Qed.

(** After [Reset] the guard holds no id, and a second [Reset] (or the
    destructor) touches neither guard nor bus.  The id is dropped even
    when [Unsubscribe] did not obtain the mutex: the entry is then still
    registered, and the guard can no longer release it. *)
Theorem Reset_once (g : Subscription.t) (bus : MessageBus.state) take take' :
  let r := Subscription.Reset g bus take in
  Subscription.IsValid r.1 = false /\
  r.2 = MessageBus.Unsubscribe bus (Subscription.Id g) take /\
  Subscription.Reset r.1 r.2 take' = r /\
  (take = false -> r.2 = bus).
Proof.
  intros r. subst r. unfold Subscription.Reset, Subscription.IsValid, Subscription.Id.
  destruct (Z.eqb_spec (Subscription.id_ g) kInvalidSubscription) as [Hinv|Hvalid];
    simpl.
  - rewrite Hinv. simpl. repeat split; try done.
  - repeat split; try done. intros ->. unfold MessageBus.Unsubscribe.
    by destruct ((Subscription.id_ g =? kInvalidSubscription)
                 || negb (MessageBus.initialized_ bus)).
Qed.

Lemma Reset_once_witness :
  Subscription.Reset (Subscription.of_id 2) demo_bus false
    = (Subscription.empty, demo_bus) /\
  sub_id <$> MessageBus.subscribers_ (Subscription.Reset (Subscription.of_id 2) demo_bus true).2
    = [1; 3].
Proof.
  destruct (Reset_once (Subscription.of_id 2) demo_bus false true)
    as (_ & _ & _ & Hleak).
  split; [| reflexivity].
  apply injective_projections; [reflexivity | exact (Hleak eq_refl)].
Defined.

(** Moving a guard moves the duty to unsubscribe: after move construction
    the source releases nothing and the new guard releases what the source
    held; after move assignment between two guards the target has released
    its old id, holds the source's id, and the source releases nothing.
    Destroying both afterwards unsubscribes each id once. *)
Theorem Subscription_moves (this other : Subscription.t) (bus : MessageBus.state)
    take t1 t2 :
  let c := Subscription.move_construct other in
  let a := Subscription.move_assign this other bus take in
  Subscription.destroy c.2 bus t1 = bus /\
  Subscription.destroy c.1 bus t1 = Subscription.destroy other bus t1 /\
  Subscription.IsValid c.2 = false /\
  a.2 = Subscription.destroy this bus take /\
  Subscription.Id a.1.1 = Subscription.Id other /\
  Subscription.IsValid a.1.2 = false /\
  Subscription.destroy a.1.2 (Subscription.destroy a.1.1 a.2 t1) t2
    = MessageBus.Unsubscribe
        (MessageBus.Unsubscribe bus (Subscription.Id this) take)
        (Subscription.Id other) t1.
Proof.
  intros c a. subst c a.
  unfold Subscription.move_construct, Subscription.move_assign. cbn [fst snd].
  assert (Ha : (let '(_, bus') := Subscription.Reset this bus take in
                (Subscription.mk (Subscription.id_ other),
                 Subscription.mk kInvalidSubscription, bus'))
               = (Subscription.mk (Subscription.id_ other),
                  Subscription.mk kInvalidSubscription,
                  Subscription.destroy this bus take)).
  { unfold Subscription.destroy. by destruct (Subscription.Reset this bus take). }
  rewrite Ha. cbn [fst snd]. rewrite !destroy_unsubscribes. simpl.
  repeat split; done.
Qed.

(** ** SubscriptionGroup *)

Lemma erase_first_comm i j (subs : list SubscriberEntry) :
  MessageBus.erase_first i (MessageBus.erase_first j subs)
  = MessageBus.erase_first j (MessageBus.erase_first i subs).
Proof.
  induction subs as [|sub rest IH]; simpl; [done |].
  destruct (Z.eqb_spec (sub_id sub) j) as [Hj|Hj],
           (Z.eqb_spec (sub_id sub) i) as [Hi|Hi]; simpl.
  - by rewrite <- Hj, <- Hi.
  - by replace (sub_id sub =? j) with true by lia.
  - by replace (sub_id sub =? i) with true by lia.
  - replace (sub_id sub =? j) with false by lia.
    replace (sub_id sub =? i) with false by lia. by rewrite IH.
Qed.

Lemma Unsubscribe_comm (b : MessageBus.state) i j ti tj :
  MessageBus.Unsubscribe (MessageBus.Unsubscribe b i ti) j tj
  = MessageBus.Unsubscribe (MessageBus.Unsubscribe b j tj) i ti.
Proof.
  unfold MessageBus.Unsubscribe.
  destruct (i =? kInvalidSubscription), (j =? kInvalidSubscription),
    (MessageBus.initialized_ b) eqn:Hinit, ti, tj; simpl; rewrite ?Hinit; simpl;
    try done.
  unfold MessageBus.with_subscribers. simpl. by rewrite erase_first_comm.
Qed.

Lemma destroy_all_foldl (subs : list Subscription.t) takes :
  (forall i, takes i = true) ->
  forall bus i,
    SubscriptionGroup.destroy_all subs bus takes i
    = foldl (fun b id => MessageBus.Unsubscribe b id true) bus
        (Subscription.id_ <$> subs).
Proof.
  intros Hall. induction subs as [|g rest IH]; intros bus i; simpl; [done |].
  by rewrite IH, destroy_unsubscribes, Hall.
Qed.

Lemma unsubscribe_all_permutation (ids1 ids2 : list SubscriptionId) :
  ids1 ≡ₚ ids2 ->
  forall bus,
    foldl (fun b id => MessageBus.Unsubscribe b id true) bus ids1
    = foldl (fun b id => MessageBus.Unsubscribe b id true) bus ids2.
Proof.
  induction 1 as [| x l1 l2 _ IH | x y l | l1 l2 l3 _ IH1 _ IH2]; intros bus; simpl.
  - done.
  - apply IH.
  - by rewrite Unsubscribe_comm.
  - by rewrite IH1, IH2.
Qed.

Lemma Unsubscribe_keeps_distinct (b : MessageBus.state) id take :
  ids_distinct (MessageBus.subscribers_ b) ->
  ids_distinct (MessageBus.subscribers_ (MessageBus.Unsubscribe b id take)).
Proof.
  intros Hnd. unfold MessageBus.Unsubscribe.
  destruct ((id =? kInvalidSubscription) || negb (MessageBus.initialized_ b));
    [done |].
  destruct (negb take); [done |]. simpl. unfold ids_distinct in *.
  eapply sublist_NoDup; [exact Hnd | apply erase_first_ids_sublist].
Qed.

Lemma Unsubscribe_subset (b : MessageBus.state) id take e :
  e ∈ MessageBus.subscribers_ (MessageBus.Unsubscribe b id take) ->
  e ∈ MessageBus.subscribers_ b.
Proof.
  unfold MessageBus.Unsubscribe.
  destruct ((id =? kInvalidSubscription) || negb (MessageBus.initialized_ b));
    [done |].
  destruct (negb take); [done |]. simpl. apply erase_first_subset.
Qed.

Lemma Unsubscribe_keeps_others (b : MessageBus.state) id take e :
  e ∈ MessageBus.subscribers_ b -> sub_id e <> id ->
  e ∈ MessageBus.subscribers_ (MessageBus.Unsubscribe b id take).
Proof.
  intros He Hne. unfold MessageBus.Unsubscribe.
  destruct ((id =? kInvalidSubscription) || negb (MessageBus.initialized_ b));
    [done |].
  destruct (negb take); [done |]. simpl. by apply erase_first_keeps.
Qed.

Lemma unsubscribe_all_removes (ids : list SubscriptionId) :
  forall bus : MessageBus.state,
    let bus' := foldl (fun b id => MessageBus.Unsubscribe b id true) bus ids in
    (forall e, e ∈ MessageBus.subscribers_ bus' -> e ∈ MessageBus.subscribers_ bus) /\
    (forall e, e ∈ MessageBus.subscribers_ bus -> sub_id e ∉ ids ->
       e ∈ MessageBus.subscribers_ bus') /\
    (MessageBus.initialized_ bus = true ->
     ids_distinct (MessageBus.subscribers_ bus) ->
     forall e id, e ∈ MessageBus.subscribers_ bus' -> id ∈ ids ->
       id <> kInvalidSubscription -> sub_id e <> id).
Proof.
  induction ids as [|id0 rest IH]; intros bus bus'; subst bus'; simpl.
  - split; [done |]. split; [done |]. intros _ _ e id _ Hid. by apply elem_of_nil in Hid.
  - destruct (IH (MessageBus.Unsubscribe bus id0 true)) as (IHsub & IHkeep & IHgone).
    split; [| split].
    + intros e He. eapply Unsubscribe_subset, IHsub, He.
    + intros e He [Hne Hrest]%not_elem_of_cons.
      apply IHkeep; [| done]. by apply Unsubscribe_keeps_others.
    + intros Hinit Hnd e id He [-> | Hid]%elem_of_cons Hvalid.
      * apply IHsub in He.
        by apply (proj1 (Unsubscribe_removes bus id0 Hinit Hvalid Hnd)).
      * apply (IHgone); try done.
        -- unfold MessageBus.Unsubscribe.
           destruct ((id0 =? kInvalidSubscription)
                     || negb (MessageBus.initialized_ bus)); [done |]. done.
        -- by apply Unsubscribe_keeps_distinct.
Qed.

(** [Clear] leaves the group empty and, on an initialized bus with
    distinct ids where every [Unsubscribe] obtains the mutex, the registry
    without any entry whose id a guard of the group held, every other
    entry being kept; it never adds an entry.  The registry it leaves does
    not depend on the order in which the guards are destroyed. *)
Theorem Group_Clear (g : SubscriptionGroup.t) (bus : MessageBus.state) takes :
  let r := SubscriptionGroup.Clear g bus takes in
  SubscriptionGroup.Size r.1 = 0%nat /\
  SubscriptionGroup.Empty r.1 = true /\
  ((forall i, takes i = true) ->
   (forall e, e ∈ MessageBus.subscribers_ r.2 -> e ∈ MessageBus.subscribers_ bus) /\
   (forall e, e ∈ MessageBus.subscribers_ bus ->
      sub_id e ∉ SubscriptionGroup.ids g -> e ∈ MessageBus.subscribers_ r.2) /\
   (MessageBus.initialized_ bus = true ->
    ids_distinct (MessageBus.subscribers_ bus) ->
    forall e id, e ∈ MessageBus.subscribers_ r.2 ->
      id ∈ SubscriptionGroup.ids g -> id <> kInvalidSubscription ->
      sub_id e <> id) /\
   (forall subs', subs' ≡ₚ SubscriptionGroup.subs_ g ->
      (SubscriptionGroup.Clear (SubscriptionGroup.mk subs') bus takes).2 = r.2)).
Proof.
  intros r. subst r. unfold SubscriptionGroup.Clear. cbn [fst snd].
  split; [done |]. split; [done |]. intros Hall.
  rewrite (destroy_all_foldl _ takes Hall).
  destruct (unsubscribe_all_removes (Subscription.id_ <$> SubscriptionGroup.subs_ g) bus)
    as (Hsub & Hkeep & Hgone).
  split; [exact Hsub |]. split; [exact Hkeep |]. split; [exact Hgone |].
  intros subs' Hperm. simpl. rewrite (destroy_all_foldl _ takes Hall).
  apply unsubscribe_all_permutation. by rewrite Hperm.
Qed.

Lemma Group_Clear_witness :
  let g := SubscriptionGroup.Add (SubscriptionGroup.Add SubscriptionGroup.empty 1) 3 in
  sub_id <$> MessageBus.subscribers_ (SubscriptionGroup.Clear g demo_bus always_ok).2
    = [2] /\
  forall e, e ∈ MessageBus.subscribers_ (SubscriptionGroup.Clear g demo_bus always_ok).2 ->
    sub_id e <> 3.
Proof.
  intros g.
  destruct (Group_Clear g demo_bus always_ok) as (_ & _ & Hclear).
  destruct (Hclear (fun _ => eq_refl)) as (_ & _ & Hgone & _).
  split; [reflexivity |].
  intros e He.
  exact (Hgone eq_refl demo_bus_ids_distinct e 3 He ltac:(right; left)
           ltac:(discriminate)).
Defined.

(** [Add] takes valid ids only: the invalid id and an invalid guard leave
    the group as it is, a valid one is appended at the end; a group built
    by [Add] from the empty group therefore holds valid ids only, and
    [Size] counts them.  A guard moved into the group is left invalid. *)
Theorem Group_Add (g : SubscriptionGroup.t) id (sub : Subscription.t) :
  SubscriptionGroup.Add g kInvalidSubscription = g /\
  (id <> kInvalidSubscription ->
     SubscriptionGroup.ids (SubscriptionGroup.Add g id) = SubscriptionGroup.ids g ++ [id] /\
     SubscriptionGroup.Size (SubscriptionGroup.Add g id) = S (SubscriptionGroup.Size g)) /\
  (Subscription.IsValid sub = false -> SubscriptionGroup.Add_move g sub = (g, sub)) /\
  (Subscription.IsValid sub = true ->
     SubscriptionGroup.ids (SubscriptionGroup.Add_move g sub).1
       = SubscriptionGroup.ids g ++ [Subscription.Id sub] /\
     Subscription.IsValid (SubscriptionGroup.Add_move g sub).2 = false) /\
  (Forall (fun i => i <> kInvalidSubscription) (SubscriptionGroup.ids g) ->
     Forall (fun i => i <> kInvalidSubscription)
       (SubscriptionGroup.ids (SubscriptionGroup.Add g id)) /\
     Forall (fun i => i <> kInvalidSubscription)
       (SubscriptionGroup.ids (SubscriptionGroup.Add_move g sub).1)).
Proof.
  unfold SubscriptionGroup.Add, SubscriptionGroup.Add_move, SubscriptionGroup.ids,
    SubscriptionGroup.Size, Subscription.IsValid, Subscription.Id.
  split; [done |]. split; [| split; [| split]].
  - intros Hid. replace (id =? kInvalidSubscription) with false by lia. simpl.
    rewrite fmap_app, length_app. simpl. split; [done | lia].
  - by intros ->.
  - intros ->. simpl. by rewrite fmap_app.
  - intros Hall. split.
    + destruct (Z.eqb_spec id kInvalidSubscription); simpl; [done |].
      rewrite fmap_app. apply Forall_app. split; [done |]. by apply Forall_singleton.
    + destruct (Z.eqb_spec (Subscription.id_ sub) kInvalidSubscription); simpl;
        [done |].
      rewrite fmap_app. apply Forall_app. split; [done |]. by apply Forall_singleton.
Qed.

Lemma Group_Add_witness :
  SubscriptionGroup.ids
    (SubscriptionGroup.Add (SubscriptionGroup.Add SubscriptionGroup.empty 0) 3) = [3] /\
  SubscriptionGroup.Add_move SubscriptionGroup.empty (Subscription.of_id 2)
    = (SubscriptionGroup.mk [Subscription.of_id 2], Subscription.empty).
Proof.
  destruct (Group_Add SubscriptionGroup.empty 3 (Subscription.of_id 2))
    as (Hinvalid & Hvalid & _).
  split.
  - change (SubscriptionGroup.Add SubscriptionGroup.empty 0)
      with (SubscriptionGroup.Add SubscriptionGroup.empty kInvalidSubscription).
    rewrite Hinvalid. exact (proj1 (Hvalid ltac:(discriminate))).
  - reflexivity.
Defined.
